(** * WinOps-Guard: the native event-log collector ([main.go])

    A shallow embedding of the collector: the channel whitelist, the query
    builder, the batch loop over result handles, the two-phase
    "discover size, then fill" native calls, the publisher metadata cache
    and the level table, together with the properties proved of them.

    Conventions.
    - Go strings are byte sequences: [string] (a list of 8-bit [ascii]).
    - [windows.Handle] and the [uintptr] result of a native call are the
      integers they denote ([Z]); Go's [int] is a 64-bit two's complement
      integer, its wrap-around written out in [int_mul].
    - [uint32] buffer sizes and counts are natural numbers.
    - Every call into wevtapi.dll is recorded, in order, in a trace; what
      the subsystem answers is supplied by a [backend].
    - Memory is not modelled, but for the one limit the collector can hit on
      its arguments alone: the capacity [make] accepts for the result
      slice. *)

From Stdlib Require Import ZArith Ascii DecimalString Lia.
From stdpp Require Import base gmap strings list.

Open Scope Z_scope.

(** ** Constants of [main.go] *)

Definition evtQueryChannelPath : Z := 0x1.
Definition evtQueryTolerateQueryErrs : Z := 0x1000.
Definition evtRenderEventXML : Z := 1.
Definition evtFormatMessageEvent : Z := 1.
Definition defaultLookbackMinutes : Z := 10.
Definition defaultMaxEvents : Z := 256.
Definition defaultLogName : string := "application".
Definition evtNextBatchSize : nat := 16.

(** Windows error codes the collector tests for. *)
Definition ERROR_INSUFFICIENT_BUFFER : Z := 122.
Definition ERROR_NO_MORE_ITEMS : Z := 259.

(** ** Go's [int] *)

Definition int_wrap (z : Z) : Z := (z + 2 ^ 63) mod 2 ^ 64 - 2 ^ 63.
Definition int_mul (a b : Z) : Z := int_wrap (a * b).

(** ** Records *)

Record eventRecord := {
  TimeGenerated : Z;       (* an instant; [UTC()] does not change it *)
  Level : string;
  EventID : Z;
  Source : string;
  Message : string }.

(** The fields [xml.Unmarshal] fills in [eventXML]. *)
Record eventXML := {
  System_Provider_Name : string;
  System_EventID : Z;
  System_Level : Z;
  System_TimeCreated_SystemTime : string }.

(** What the collector takes from Go's standard library, from
    [x/sys/windows] and from the runtime without it being part of the
    collector; the functions are pure, and the development is parametric in
    all of it.
    - [unicode_ToLower] is [strings.ToLower] on a string that holds a byte
      from 0x80 up (the mapping of [unicode.ToLower] over its runes).
    - [IsPrint] is [strconv.IsPrint] on a rune beyond U+00FF.
    - [max_slice_cap] is the largest [n] for which
      [make([]eventRecord, 0, n)] does not panic. *)
Record golib := {
  UTF16ToString : list Z -> string;
  xml_Unmarshal : string -> option eventXML;
  time_Parse : string -> option Z;                  (* layout RFC3339Nano *)
  json_Encode : list eventRecord -> option string;
  unicode_ToLower : string -> string;
  IsPrint : Z -> bool;
  max_slice_cap : Z }.

(** ** Byte strings

    [strings.ToLower], [strings.TrimSpace], [strconv.Quote] and
    [fmt.Sprintf "%d"] belong to Go's standard library.  They are modelled
    on byte strings, the text being UTF-8 wherever it is text at all: the
    ASCII part of each function is written out, white space and the
    decoding of runes are written out in full, and the two Unicode tables
    (lower case, printable) are those of [golib]. *)

Definition byte_of (n : nat) : ascii := ascii_of_nat n.
Definition code (c : ascii) : nat := nat_of_ascii c.
Definition bytes (l : list nat) : list ascii := map byte_of l.

Definition quote_char : ascii := "034"%char.
Definition backslash_char : ascii := "092"%char.

(** [c < utf8.RuneSelf]. *)
Definition is_ascii_byte (c : ascii) : bool := (code c <? 128)%nat.

Definition is_ascii (s : string) : bool :=
  forallb is_ascii_byte (String.list_ascii_of_string s).

Definition is_upper (c : ascii) : bool :=
  (65 <=? code c)%nat && (code c <=? 90)%nat.

Definition lower_char (c : ascii) : ascii :=
  if is_upper c then byte_of (code c + 32) else c.

Fixpoint lower_bytes (s : string) : string :=
  match s with
  | EmptyString => EmptyString
  | String c s' => String (lower_char c) (lower_bytes s')
  end.

(** [strings.ToLower]: a string of ASCII bytes only is converted byte by
    byte; any other goes through the Unicode table. *)
Definition ToLower (lib : golib) (s : string) : string :=
  if is_ascii s then lower_bytes s else unicode_ToLower lib s.

(** The ASCII white space: '\t', '\n', '\v', '\f', '\r' and ' '. *)
Definition is_space (c : ascii) : bool :=
  ((9 <=? code c)%nat && (code c <=? 13)%nat) || (code c =? 32)%nat.

(** The UTF-8 encodings of the runes [unicode.IsSpace] holds of: the six
    ASCII ones, U+0085, U+00A0, U+1680, U+2000 to U+200A, U+2028, U+2029,
    U+202F, U+205F and U+3000. *)
Definition space_runes : list (list ascii) :=
  map bytes
    [[9]; [10]; [11]; [12]; [13]; [32];
     [194; 133]; [194; 160];
     [225; 154; 128];
     [226; 128; 128]; [226; 128; 129]; [226; 128; 130]; [226; 128; 131];
     [226; 128; 132]; [226; 128; 133]; [226; 128; 134]; [226; 128; 135];
     [226; 128; 136]; [226; 128; 137]; [226; 128; 138];
     [226; 128; 168]; [226; 128; 169]; [226; 128; 175];
     [226; 129; 159];
     [227; 128; 128]]%nat.

(** [l] without its prefix [p], when it has that prefix. *)
Fixpoint cut_prefix (p l : list ascii) : option (list ascii) :=
  match p, l with
  | [], _ => Some l
  | a :: p', b :: l' => if Ascii.eqb a b then cut_prefix p' l' else None
  | _ :: _, [] => None
  end.

(** [l] without the first of [pats] it starts with. *)
Fixpoint strip_one (pats : list (list ascii)) (l : list ascii) : option (list ascii) :=
  match pats with
  | [] => None
  | p :: ps =>
      match cut_prefix p l with
      | Some r => Some r
      | None => strip_one ps l
      end
  end.

(** Strips leading occurrences of [pats] for as long as there is one; each
    takes a byte at least, so a [fuel] of the length of [l] is enough. *)
Fixpoint strip_all (pats : list (list ascii)) (fuel : nat) (l : list ascii) : list ascii :=
  match fuel with
  | O => l
  | S n =>
      match strip_one pats l with
      | Some r => strip_all pats n r
      | None => l
      end
  end.

Definition trim_left (l : list ascii) : list ascii :=
  strip_all space_runes (length l) l.

(** The same from the end: a rune before the end is found by its encoding
    read backwards. *)
Definition trim_right (l : list ascii) : list ascii :=
  rev (strip_all (map (@rev ascii) space_runes) (length l) (rev l)).

(** [strings.TrimSpace]: the string without the white-space runes at its
    start and at its end.  A byte that is no part of the encoding of a
    white-space rune, valid UTF-8 or not, stops the trimming. *)
Definition TrimSpace (s : string) : string :=
  String.string_of_list_ascii (trim_right (trim_left (String.list_ascii_of_string s))).

(** [fmt.Sprintf "%d"]. *)
Definition sprint_d (z : Z) : string := NilZero.string_of_int (Z.to_int z).

Definition hex_digit (n : nat) : ascii :=
  if (n <? 10)%nat then byte_of (48 + n) else byte_of (87 + n).

(** The [n] lowest hexadecimal digits of [z], the most significant first. *)
Fixpoint hex (n : nat) (z : Z) : string :=
  match n with
  | O => EmptyString
  | S n' => String (hex_digit (Z.to_nat ((z / 16 ^ Z.of_nat n') mod 16))) (hex n' z)
  end.

(** What [strconv.Quote] writes for an ASCII byte. *)
Definition quote_byte (c : ascii) : string :=
  let n := code c in
  if (n =? 34)%nat then String backslash_char (String quote_char EmptyString)
  else if (n =? 92)%nat then String backslash_char (String backslash_char EmptyString)
  else if (n =? 7)%nat then String backslash_char "a"
  else if (n =? 8)%nat then String backslash_char "b"
  else if (n =? 12)%nat then String backslash_char "f"
  else if (n =? 10)%nat then String backslash_char "n"
  else if (n =? 13)%nat then String backslash_char "r"
  else if (n =? 9)%nat then String backslash_char "t"
  else if (n =? 11)%nat then String backslash_char "v"
  else if (n <? 32)%nat || (n =? 127)%nat then
    String backslash_char
      (String "x" (String (hex_digit (n / 16)) (String (hex_digit (n mod 16)) EmptyString)))
  else String c EmptyString.

Definition in_range (lo hi : nat) (c : ascii) : bool :=
  (lo <=? code c)%nat && (code c <=? hi)%nat.

(** The payload bits of a continuation byte. *)
Definition low6 (c : ascii) : Z := Z.of_nat (code c) - 128.

(** [utf8.DecodeRuneInString] at a first byte [c0] from 0x80 up, followed
    by [rest]: the rune and its encoding, or nothing when the bytes are no
    valid encoding (Go: [RuneError] with a width of 1).  Overlong forms,
    surrogates and values past U+10FFFF are invalid. *)
Definition decode_rune (c0 : ascii) (rest : string) : option (Z * string) :=
  let b0 := Z.of_nat (code c0) in
  if in_range 194 223 c0 then
    match rest with
    | String c1 _ =>
        if in_range 128 191 c1
        then Some ((b0 - 192) * 64 + low6 c1, String c0 (String c1 EmptyString))
        else None
    | _ => None
    end
  else if in_range 224 239 c0 then
    match rest with
    | String c1 (String c2 _) =>
        if in_range (if (code c0 =? 224)%nat then 160 else 128)
                    (if (code c0 =? 237)%nat then 159 else 191) c1
           && in_range 128 191 c2
        then Some ((b0 - 224) * 4096 + low6 c1 * 64 + low6 c2,
                   String c0 (String c1 (String c2 EmptyString)))
        else None
    | _ => None
    end
  else if in_range 240 244 c0 then
    match rest with
    | String c1 (String c2 (String c3 _)) =>
        if in_range (if (code c0 =? 240)%nat then 144 else 128)
                    (if (code c0 =? 244)%nat then 143 else 191) c1
           && in_range 128 191 c2 && in_range 128 191 c3
        then Some ((b0 - 240) * 262144 + low6 c1 * 4096 + low6 c2 * 64 + low6 c3,
                   String c0 (String c1 (String c2 (String c3 EmptyString))))
        else None
    | _ => None
    end
  else None.

(** [strconv.IsPrint] on a rune from 0x80 up: in Latin-1 the runes from
    U+00A1 on but the soft hyphen U+00AD, beyond Latin-1 what the table
    says. *)
Definition is_print (lib : golib) (r : Z) : bool :=
  if r <=? 255 then (161 <=? r) && negb (r =? 173) else IsPrint lib r.

(** What [strconv.Quote] writes for a rune [r] from 0x80 up, [enc] being
    its encoding: the encoding itself when the rune is printable, the
    escape [\uXXXX] or [\UXXXXXXXX] otherwise. *)
Definition quote_rune (lib : golib) (r : Z) (enc : string) : string :=
  if is_print lib r then enc
  else if r <? 65536 then String backslash_char (String "u" (hex 4 r))
  else String backslash_char (String "U" (hex 8 r)).

(** The loop of [strconv.Quote] over the string, rune by rune: [skip] is
    the number of bytes ahead that belong to the rune just written.  A byte
    from 0x80 up that starts no valid encoding is written as [\xXX]. *)
Fixpoint quote_from (lib : golib) (skip : nat) (s : string) : string :=
  match s with
  | EmptyString => EmptyString
  | String c rest =>
      match skip with
      | S k => quote_from lib k rest
      | O =>
          if is_ascii_byte c then quote_byte c +:+ quote_from lib 0 rest
          else
            match decode_rune c rest with
            | Some (r, enc) =>
                quote_rune lib r enc +:+ quote_from lib (String.length enc - 1) rest
            | None =>
                String backslash_char
                  (String "x" (String (hex_digit (code c / 16))
                                 (String (hex_digit (code c mod 16)) EmptyString)))
                  +:+ quote_from lib 0 rest
            end
      end
  end.

Definition quote_body (lib : golib) (s : string) : string := quote_from lib 0 s.

Definition Quote (lib : golib) (s : string) : string :=
  String quote_char (quote_body lib s +:+ String quote_char EmptyString).

(** [windows.UTF16PtrFromString] refuses a string with a NUL byte; the
    pointer it yields stands for the text it points to. *)
Fixpoint has_nul (s : string) : bool :=
  match s with
  | EmptyString => false
  | String c s' => (code c =? 0)%nat || has_nul s'
  end.

Definition UTF16PtrFromString (s : string) : option string :=
  if has_nul s then None else Some s.

(** ** Errors and outcomes *)

(** The [lastErr] of [LazyProc.Call]: a [windows.Errno], or an error of
    another dynamic type (for which the type assertion [err.(windows.Errno)]
    fails). *)
Inductive lastErr :=
| Errno (e : Z)
| OtherErr.

Definition is_errno (err : lastErr) (e : Z) : bool :=
  match err with
  | Errno e' => e' =? e
  | OtherErr => false
  end.

Inductive error :=
| ErrUnsupportedLog (name : string)     (* "unsupported log: %s (use ...)" *)
| ErrQueryUTF16                         (* "query UTF16: %w" *)
| ErrPathUTF16                          (* "path UTF16: %w" *)
| ErrPublisherUTF16                     (* "publisher UTF16: %w" *)
| ErrEvtQuery (e : lastErr)             (* "EvtQuery: %w" *)
| ErrNoMoreItems                        (* windows.ERROR_NO_MORE_ITEMS itself *)
| ErrEvtNext (e : lastErr)              (* "EvtNext: %w" *)
| ErrEvtRenderSize (e : lastErr)        (* "EvtRender(size): %w" *)
| ErrEvtRender (e : lastErr)            (* "EvtRender: %w" *)
| ErrParseXML                           (* "parse XML: %w" *)
| ErrParseTime                          (* "parse time: %w" *)
| ErrEvtOpenPublisherMetadata (e : lastErr)
| ErrEvtFormatMessageSize (e : lastErr) (* "EvtFormatMessage(size): %w" *)
| ErrEvtFormatMessage (e : lastErr).    (* "EvtFormatMessage: %w" *)

(** Run-time panics of the Go runtime that the collector can reach. *)
Inductive panic :=
| IndexOutOfRange        (* [&buf[0]] on an empty slice *)
| SliceBoundsOutOfRange  (* [s[:n]] with [n > cap(s)] *)
| MakesliceCapOutOfRange. (* [make([]T, 0, n)] with [n] too large *)

Inductive outcome (A : Type) :=
| Ok (a : A)
| Err (e : error)
| Panic (p : panic).
Arguments Ok {A} a.
Arguments Err {A} e.
Arguments Panic {A} p.

Definition is_ok {A} (o : outcome A) : bool :=
  match o with Ok _ => true | _ => false end.

(** ** Channel whitelist and level table *)

Definition normalizeLogName (lib : golib) (name : string) : outcome string :=
  let key := ToLower lib (TrimSpace name) in
  if (key =? "application")%string || (key =? "")%string then Ok "Application"
  else if (key =? "system")%string then Ok "System"
  else if (key =? "setup")%string then Ok "Setup"
  else Err (ErrUnsupportedLog name).

Definition mapLevel (level : Z) : string :=
  if level =? 2 then "Error"
  else if level =? 3 then "Warning"
  else if level =? 4 then "Information"
  else "Unknown".

(** ** Query builder *)

Definition buildQuery (lib : golib) (ms : Z) (provider : string) : string :=
  if (provider =? "")%string then
    "*[System[TimeCreated[timediff(@SystemTime) <= " +:+ sprint_d ms +:+ "]]]"
  else
    let quotedProvider := Quote lib provider in
    "*[System[Provider[@Name=" +:+ quotedProvider
      +:+ "] and TimeCreated[timediff(@SystemTime) <= " +:+ sprint_d ms +:+ "]]]".


(** ** The native subsystem (wevtapi.dll)

    What a call returns: [r] is the first result of [LazyProc.Call], the
    error its last one, and the remaining fields are what the subsystem
    wrote through the pointers it was handed. *)

Record next_resp := {
  nx_r : Z;
  nx_err : lastErr;
  nx_handles : list Z;     (* written to the handle array *)
  nx_returned : nat }.     (* written to [returned] *)

Record sized_resp := {
  sz_r : Z;
  sz_err : lastErr;
  sz_used : nat;           (* written to [bufferUsed] / [used] *)
  sz_data : list Z }.      (* written to the buffer *)

(** One native call, with the arguments that matter. *)
Inductive call :=
| EvtQuery (path query : string) (flags : Z) (r : Z)
| EvtNext (hQuery : Z) (batch : nat) (timeout : Z) (resp : next_resp)
| EvtRender (hEvt : Z) (flags : Z) (bufSize : nat) (bufLen : nat)
| EvtOpenPublisherMetadata (provider : string) (r : Z)
| EvtFormatMessage (meta hEvt : Z) (flags : Z) (bufSize : nat) (bufLen : nat)
| EvtClose (h : Z).

(** The subsystem's answers may depend on everything that was called
    before.  [EvtNext] is answered from a script instead, one entry per
    call (see [fetchLoop]). *)
Record backend := {
  be_EvtQuery : list call -> string -> string -> Z -> Z * lastErr;
  be_EvtRender : list call -> Z -> Z -> nat -> sized_resp;
  be_EvtOpenPublisherMetadata : list call -> string -> Z * lastErr;
  be_EvtFormatMessage : list call -> Z -> Z -> Z -> nat -> sized_resp }.

(** The answer of [EvtNext] once the result set is used up. *)
Definition no_more_items : next_resp :=
  {| nx_r := 0; nx_err := Errno ERROR_NO_MORE_ITEMS; nx_handles := []; nx_returned := 0 |}.

(** ** State and the collector's monad

    The state a run threads through: the calls made so far, and the map of
    the [publisherCache] in use (the mutex is not modelled: a run is
    sequential). *)
Record world := {
  trace : list call;
  handles : gmap string Z }.

Definition M (A : Type) : Type := world -> outcome A * world.

Definition ret {A} (a : A) : M A := fun w => (Ok a, w).
Definition fail {A} (e : error) : M A := fun w => (Err e, w).
Definition throw {A} (p : panic) : M A := fun w => (Panic p, w).

Definition bind {A B} (m : M A) (k : A -> M B) : M B := fun w =>
  match m w with
  | (Ok a, w') => k a w'
  | (Err e, w') => (Err e, w')
  | (Panic p, w') => (Panic p, w')
  end.

Notation "x <- m ;; k" := (bind m (fun x => k))
  (at level 100, m at next level, right associativity).

(** Runs [m] and hands its error, if any, to the continuation as a value. *)
Definition attempt {A} (m : M A) : M (A + error) := fun w =>
  match m w with
  | (Ok a, w') => (Ok (inl a), w')
  | (Err e, w') => (Ok (inr e), w')
  | (Panic p, w') => (Panic p, w')
  end.

(** [defer cleanup] before [m]: [cleanup] runs when [m] is left, whether it
    returns, fails or panics. *)
Definition defer {A} (cleanup : M unit) (m : M A) : M A := fun w =>
  let '(r, w1) := m w in (r, snd (cleanup w1)).

Definition from_option {A} (e : error) (o : option A) : M A :=
  match o with Some a => ret a | None => fail e end.

Definition record (c : call) : M unit := fun w =>
  (Ok tt, {| trace := trace w ++ [c]; handles := handles w |}).

Definition history : M (list call) := fun w => (Ok (trace w), w).

(** [make([]uint16, n)] and [&buf[0]]. *)
Definition make_slice (n : nat) : list Z := repeat 0 n.

Definition first_elem_ptr (buf : list Z) : M unit :=
  match buf with
  | [] => throw IndexOutOfRange
  | _ :: _ => ret tt
  end.

(** The buffer after the subsystem wrote [data] at its start. *)
Definition written (buf data : list Z) : list Z :=
  firstn (length buf) (data ++ skipn (length data) buf).

Section Collector.

Variable lib : golib.
Variable be : backend.

(** *** The procs *)

Definition procEvtQuery (path query : string) (flags : Z) : M (Z * lastErr) :=
  t <- history ;;
  let a := be_EvtQuery be t path query flags in
  _ <- record (EvtQuery path query flags (fst a)) ;;
  ret a.

Definition procEvtNext (resp : next_resp) (hQuery : Z) (batch : nat) (timeout : Z)
  : M next_resp :=
  _ <- record (EvtNext hQuery batch timeout resp) ;;
  ret resp.

Definition procEvtRender (hEvt flags : Z) (bufSize : nat) (buf : list Z) : M sized_resp :=
  t <- history ;;
  _ <- record (EvtRender hEvt flags bufSize (length buf)) ;;
  ret (be_EvtRender be t hEvt flags bufSize).

Definition procEvtOpenPublisherMetadata (provider : string) : M (Z * lastErr) :=
  t <- history ;;
  let a := be_EvtOpenPublisherMetadata be t provider in
  _ <- record (EvtOpenPublisherMetadata provider (fst a)) ;;
  ret a.

Definition procEvtFormatMessage (meta hEvt flags : Z) (bufSize : nat) (buf : list Z)
  : M sized_resp :=
  t <- history ;;
  _ <- record (EvtFormatMessage meta hEvt flags bufSize (length buf)) ;;
  ret (be_EvtFormatMessage be t meta hEvt flags bufSize).

Definition procEvtClose (h : Z) : M unit := record (EvtClose h).

(** *** [evtCloseHandle] *)

Definition evtCloseHandle (h : Z) : M unit :=
  if h =? 0 then ret tt else procEvtClose h.

(** *** [publisherCache] *)

Definition cache_lookup (provider : string) : M (option Z) := fun w =>
  (Ok (handles w !! provider), w).

Definition cache_store (provider : string) (h : Z) : M unit := fun w =>
  (Ok tt, {| trace := trace w; handles := <[provider := h]> (handles w) |}).

Definition cache_delete (provider : string) : M unit := fun w =>
  (Ok tt, {| trace := trace w; handles := delete provider (handles w) |}).

(** [var cache publisherCache]: a fresh, empty cache. *)
Definition cache_new : M unit := fun w =>
  (Ok tt, {| trace := trace w; handles := ∅ |}).

Definition get (provider : string) : M Z :=
  cached <- cache_lookup provider ;;
  match cached with
  | Some h => ret h
  | None =>
      ptr <- from_option ErrPublisherUTF16 (UTF16PtrFromString provider) ;;
      a <- procEvtOpenPublisherMetadata ptr ;;
      let '(r, callErr) := a in
      if r =? 0 then fail (ErrEvtOpenPublisherMetadata callErr)
      else
        let h := r in
        _ <- cache_store provider h ;;
        ret h
  end.

(** [for k, h := range c.handles]: Go leaves the order open; the entries
    are visited in the order of [map_to_list]. *)
Fixpoint close_entries (entries : list (string * Z)) : M unit :=
  match entries with
  | [] => ret tt
  | (k, h) :: rest =>
      _ <- evtCloseHandle h ;;
      _ <- cache_delete k ;;
      close_entries rest
  end.

Definition close : M unit := fun w =>
  close_entries (map_to_list (handles w)) w.

(** *** [evtQuery] and [evtNextBatch] *)

Definition evtQuery (path query : string) : M Z :=
  a <- procEvtQuery path query (Z.lor evtQueryChannelPath evtQueryTolerateQueryErrs) ;;
  let '(r, err) := a in
  if r =? 0 then fail (ErrEvtQuery err) else ret r.

(** [resp] is what the subsystem answers to this call. *)
Definition evtNextBatch (resp : next_resp) (hQuery : Z) (batch : nat) : M (list Z) :=
  let handles := make_slice batch in
  _ <- first_elem_ptr handles ;;
  a <- procEvtNext resp hQuery batch 2000 ;;
  if nx_r a =? 0 then
    if is_errno (nx_err a) ERROR_NO_MORE_ITEMS then fail ErrNoMoreItems
    else fail (ErrEvtNext (nx_err a))
  else
    let handles := written handles (nx_handles a) in
    let returned := nx_returned a in
    if (returned <=? length handles)%nat then ret (firstn returned handles)
    else throw SliceBoundsOutOfRange.

(** *** The two-phase calls *)

Definition renderEventXML (hEvt : Z) : M string :=
  d <- procEvtRender hEvt evtRenderEventXML 0 [] ;;
  _ <- (if sz_r d =? 0 then
          if negb (is_errno (sz_err d) ERROR_INSUFFICIENT_BUFFER)
          then fail (ErrEvtRenderSize (sz_err d))
          else ret tt
        else ret tt) ;;
  let bufferUsed := sz_used d in
  let buffer := make_slice bufferUsed in
  _ <- first_elem_ptr buffer ;;
  f <- procEvtRender hEvt evtRenderEventXML bufferUsed buffer ;;
  if sz_r f =? 0 then fail (ErrEvtRender (sz_err f))
  else ret (UTF16ToString lib (written buffer (sz_data f))).

Definition formatMessage (meta hEvt : Z) : M string :=
  d <- procEvtFormatMessage meta hEvt evtFormatMessageEvent 0 [] ;;
  _ <- (if sz_r d =? 0 then
          if negb (is_errno (sz_err d) ERROR_INSUFFICIENT_BUFFER)
          then fail (ErrEvtFormatMessageSize (sz_err d))
          else ret tt
        else ret tt) ;;
  let used := sz_used d in
  let buf := make_slice used in
  _ <- first_elem_ptr buf ;;
  f <- procEvtFormatMessage meta hEvt evtFormatMessageEvent used buf ;;
  if sz_r f =? 0 then fail (ErrEvtFormatMessage (sz_err f))
  else ret (TrimSpace (UTF16ToString lib (written buf (sz_data f)))).

(** *** [parseEvent] *)

Definition parseEvent (hEvt : Z) : M eventRecord :=
  xmlText <- renderEventXML hEvt ;;
  parsed <- from_option ErrParseXML (xml_Unmarshal lib xmlText) ;;
  timestamp <- from_option ErrParseTime
                 (time_Parse lib (System_TimeCreated_SystemTime parsed)) ;;
  let levelText := mapLevel (System_Level parsed) in
  let source := System_Provider_Name parsed in
  meta <- get source ;;
  msg <- formatMessage meta hEvt ;;
  ret {| TimeGenerated := timestamp;
         Level := levelText;
         EventID := System_EventID parsed;
         Source := source;
         Message := msg |}.

(** *** [fetchEvents] *)

Section Loop.

Variable hQuery : Z.
Variable maxEvents : Z.

(** [for _, hEvt := range handles { ... }]: leaves with the records so far
    when the cap is reached ([break]) or the batch is used up. *)
Fixpoint renderBatch (batch : list Z) (results : list eventRecord)
  : M (list eventRecord) :=
  match batch with
  | [] => ret results
  | hEvt :: rest =>
      r <- attempt (parseEvent hEvt) ;;
      _ <- evtCloseHandle hEvt ;;
      match r with
      | inr err => fail err
      | inl rec =>
          let results := results ++ [rec] in
          if Z.of_nat (length results) >=? maxEvents then ret results
          else renderBatch rest results
      end
  end.

(** One turn of [for len(results) < maxEvents { ... }], [again] being the
    rest of the loop. *)
Definition fetchStep (resp : next_resp) (results : list eventRecord)
    (again : list eventRecord -> M (list eventRecord)) : M (list eventRecord) :=
  r <- attempt (evtNextBatch resp hQuery evtNextBatchSize) ;;
  match r with
  | inr err =>
      match err with
      | ErrNoMoreItems => ret results
      | _ => fail err
      end
  | inl batch =>
      results <- renderBatch batch results ;;
      again results
  end.

(** The loop, over the subsystem's answers to [EvtNext].  The result set is
    finite: when the script is used up the subsystem answers
    [no_more_items]. *)
Fixpoint fetchLoop (script : list next_resp) (results : list eventRecord)
  : M (list eventRecord) :=
  if Z.of_nat (length results) <? maxEvents then
    match script with
    | resp :: rest => fetchStep resp results (fetchLoop rest)
    | [] => fetchStep no_more_items results ret
    end
  else ret results.

End Loop.

(** [make([]eventRecord, 0, maxEvents)]: the runtime panics ("makeslice: cap
    out of range") when the capacity is more than it can allocate. *)
Definition make_results (maxEvents : Z) : M (list eventRecord) :=
  if maxEvents <=? max_slice_cap lib then ret [] else throw MakesliceCapOutOfRange.

(** The [var] block declares the result slice and the cache.  The cache is
    its zero value, the empty cache; it is written down first here, as no
    run can tell when an empty cache was declared: a panic of [make] then
    leaves the empty cache of the run in the state. *)
Definition fetchEvents (script : list next_resp) (logName provider : string)
    (minutes maxEvents : Z) : M (list eventRecord) :=
  let minutes := if minutes <=? 0 then defaultLookbackMinutes else minutes in
  let maxEvents := if maxEvents <=? 0 then defaultMaxEvents else maxEvents in
  let ms := int_mul (int_mul minutes 60) 1000 in
  let queryStr := buildQuery lib ms provider in
  queryPtr <- from_option ErrQueryUTF16 (UTF16PtrFromString queryStr) ;;
  pathPtr <- from_option ErrPathUTF16 (UTF16PtrFromString logName) ;;
  hQuery <- evtQuery pathPtr queryPtr ;;
  defer (evtCloseHandle hQuery)
    (_ <- cache_new ;;
     results <- make_results maxEvents ;;
     defer close (fetchLoop hQuery maxEvents script results)).

(** *** [main] *)

Inductive exit :=
| Exit0 (stdout : string)
| Exit2 (e : option error)      (* [None]: "failed to encode JSON" *)
| Crash (p : panic).

(** The flags as [flag.Parse] left them. *)
Definition main (logName provider : string) (minutes maxEvents : Z)
    (script : list next_resp) (w : world) : exit * world :=
  match normalizeLogName lib logName with
  | Ok channel =>
      match fetchEvents script channel (TrimSpace provider) minutes maxEvents w with
      | (Ok events, w') =>
          match json_Encode lib events with
          | Some out => (Exit0 out, w')
          | None => (Exit2 None, w')
          end
      | (Err e, w') => (Exit2 (Some e), w')
      | (Panic p, w') => (Crash p, w')
      end
  | Err e => (Exit2 (Some e), w)
  | Panic p => (Crash p, w)
  end.

End Collector.

Arguments evtCloseHandle : simpl never.
Arguments get : simpl never.
Arguments close : simpl never.
Arguments evtQuery : simpl never.
Arguments evtNextBatch : simpl never.
Arguments renderEventXML : simpl never.
Arguments formatMessage : simpl never.
Arguments parseEvent : simpl never.
Arguments renderBatch : simpl nomatch.
Arguments fetchStep : simpl never.
Arguments fetchLoop : simpl nomatch.
Arguments fetchEvents : simpl never.

(** The state a process starts in. *)
Definition start : world := {| trace := []; handles := ∅ |}.

(** ** A mock subsystem

    One provider, every event rendering and formatting in two phases, and a
    result set handed out in the batches of a script.  The mock library
    reads UTF-16 as ASCII, has no letters beyond ASCII and no unprintable
    runes beyond Latin-1, and makes slices of 80-byte records up to 2^48
    bytes. *)

Fixpoint utf16_ascii (u : list Z) : string :=
  match u with
  | [] => EmptyString
  | c :: u' => if c =? 0 then EmptyString else String (byte_of (Z.to_nat c)) (utf16_ascii u')
  end.

Definition mock_lib : golib := {|
  UTF16ToString := utf16_ascii;
  xml_Unmarshal := fun text =>
    Some {| System_Provider_Name := text;
            System_EventID := 1000;
            System_Level := 2;
            System_TimeCreated_SystemTime := "2024-01-01T00:00:00Z" |};
  time_Parse := fun _ => Some 1704067200;
  json_Encode := fun _ => Some "[]";
  unicode_ToLower := lower_bytes;
  IsPrint := fun _ => true;
  max_slice_cap := 3518437208883 |}.

Definition mock_sized (bufSize : nat) (text : list Z) : sized_resp :=
  if (bufSize <? length text)%nat then
    {| sz_r := 0; sz_err := Errno ERROR_INSUFFICIENT_BUFFER;
       sz_used := length text; sz_data := [] |}
  else
    {| sz_r := 1; sz_err := Errno 0; sz_used := length text; sz_data := text |}.

Definition mock_backend : backend := {|
  be_EvtQuery := fun _ _ _ _ => (100, Errno 0);
  be_EvtRender := fun _ _ _ bufSize => mock_sized bufSize [83; 118; 99; 0];
  be_EvtOpenPublisherMetadata := fun _ _ => (200, Errno 0);
  be_EvtFormatMessage := fun _ _ _ _ bufSize => mock_sized bufSize [32; 117; 112; 32; 0] |}.

Definition batch_of (hs : list Z) : next_resp :=
  {| nx_r := 1; nx_err := Errno 0; nx_handles := hs; nx_returned := length hs |}.

(** [ {3 handles}, {2 handles}, Exhausted ] *)
Definition mock_script : list next_resp :=
  [batch_of [1; 2; 3]; batch_of [4; 5]; no_more_items].

(** A subsystem that reports a required size of zero: [EvtRender]
    succeeds outright on the size call, [EvtFormatMessage] answers
    "buffer too small". *)
Definition zero_size_backend : backend := {|
  be_EvtQuery := fun _ _ _ _ => (100, Errno 0);
  be_EvtRender := fun _ _ _ _ =>
    {| sz_r := 1; sz_err := Errno 0; sz_used := 0; sz_data := [] |};
  be_EvtOpenPublisherMetadata := fun _ _ => (200, Errno 0);
  be_EvtFormatMessage := fun _ _ _ _ _ =>
    {| sz_r := 0; sz_err := Errno ERROR_INSUFFICIENT_BUFFER; sz_used := 0; sz_data := [] |} |}.

(** A subsystem whose size calls are refused (ERROR_ACCESS_DENIED). *)
Definition denied_backend : backend := {|
  be_EvtQuery := fun _ _ _ _ => (100, Errno 0);
  be_EvtRender := fun _ _ _ _ =>
    {| sz_r := 0; sz_err := Errno 5; sz_used := 0; sz_data := [] |};
  be_EvtOpenPublisherMetadata := fun _ _ => (200, Errno 0);
  be_EvtFormatMessage := fun _ _ _ _ _ =>
    {| sz_r := 0; sz_err := Errno 5; sz_used := 0; sz_data := [] |} |}.

(** ** Reading a trace *)

Definition closed_handles (t : list call) : list Z :=
  omap (fun c => match c with EvtClose h => Some h | _ => None end) t.

Definition fetched_handles (t : list call) : list Z :=
  mjoin (omap (fun c => match c with
                        | EvtNext _ _ _ resp =>
                            if nx_r resp =? 0 then None
                            else Some (firstn (nx_returned resp) (nx_handles resp))
                        | _ => None
                        end) t).

Definition is_open_call (provider : string) (c : call) : bool :=
  match c with
  | EvtOpenPublisherMetadata p _ => bool_decide (p = provider)
  | _ => false
  end.

Definition open_calls (provider : string) (t : list call) : nat :=
  length (List.filter (is_open_call provider) t).

Definition records_of (o : outcome (list eventRecord)) : list eventRecord :=
  match o with Ok recs => recs | _ => [] end.

(** ** Vocabulary of the properties *)

(** The keys [normalizeLogName] has a case for. *)
Definition accepted_keys : list string := ["application"; ""; "system"; "setup"].

(** Two bytes that are the same, or the same ASCII letter in its two
    cases; two strings that are the same up to the case of their ASCII
    letters.  Neither is defined through [ToLower]. *)
Definition same_letter (x y : ascii) : bool :=
  Ascii.eqb x y
  || (is_upper x && (code y =? code x + 32)%nat)
  || (is_upper y && (code x =? code y + 32)%nat).

Fixpoint eq_ignoring_case (a b : string) : bool :=
  match a, b with
  | EmptyString, EmptyString => true
  | String x a', String y b' => same_letter x y && eq_ignoring_case a' b'
  | _, _ => false
  end.

(** [name] is, up to the case of its letters, one of Application, System
    and Setup. *)
Definition names_channel (name : string) : bool :=
  existsb (eq_ignoring_case name) ["Application"; "System"; "Setup"].

(** A string of ASCII white space only. *)
Definition all_space (s : string) : bool :=
  forallb is_space (String.list_ascii_of_string s).

Definition is_lower (c : ascii) : bool :=
  (97 <=? code c)%nat && (code c <=? 122)%nat.

(** [l] without the ASCII white space it starts with. *)
Fixpoint skip_spaces (l : list ascii) : list ascii :=
  match l with
  | [] => []
  | c :: l' => if is_space c then skip_spaces l' else l
  end.

(** A string literal of XPath 1.0, the language of the query, in double
    quotes: it runs from the opening quote to the next double quote, and no
    byte in between is an escape.  [until_quote] splits a text at its first
    double quote; [xpath_literal] yields the value of the literal a text
    starts with and what follows its closing quote. *)
Fixpoint until_quote (s : string) : option (string * string) :=
  match s with
  | EmptyString => None
  | String c s' =>
      if (code c =? 34)%nat then Some (EmptyString, s')
      else match until_quote s' with
           | Some (value, rest) => Some (String c value, rest)
           | None => None
           end
  end.

Definition xpath_literal (s : string) : option (string * string) :=
  match s with
  | EmptyString => None
  | String c s' => if (code c =? 34)%nat then until_quote s' else None
  end.

Fixpoint contains_quote (s : string) : bool :=
  match s with
  | EmptyString => false
  | String c s' => (code c =? 34)%nat || contains_quote s'
  end.

(** None of the first [k] bytes of [s] is a double quote. *)
Fixpoint no_quote_prefix (k : nat) (s : string) : bool :=
  match k, s with
  | S k', String c s' => negb (code c =? 34)%nat && no_quote_prefix k' s'
  | _, _ => true
  end.

(** What [buildQuery] writes after the quoted provider. *)
Definition query_tail (ms : Z) : string :=
  "] and TimeCreated[timediff(@SystemTime) <= " +:+ sprint_d ms +:+ "]]]".

(** The state after [calls] were made on top of [w]. *)
Definition after (w : world) (calls : list call) : world :=
  {| trace := trace w ++ calls; handles := handles w |}.




(** No provider was opened twice. *)
Definition opened_once (w : world) : Prop :=
  ∀ p, (open_calls p (trace w) ≤ 1)%nat.

(** ... and the providers opened are the cached ones. *)
Definition cache_sound (w : world) : Prop :=
  ∀ p, (open_calls p (trace w) ≤ 1)%nat
       ∧ (handles w !! p = None → open_calls p (trace w) = 0%nat).

(** The protocol of a two-phase call [run] started in [w].  [d] is the
    answer to its size call [size_call]; [fill_call n l] is its fill call
    announcing [n] elements with a buffer of [l], and [f] the answer to
    that.
    - A size call that fails for anything but "buffer too small" fails the
      record with [size_err], and nothing else is called.
    - Otherwise the size call is accepted; when the size it reports is not
      zero, the fill call is made with a buffer of exactly that size, and
      the record fails with [fill_err] unless the fill call succeeds, in
      which case the buffer is decoded.
    - When the size call is accepted and reports a size of zero, no fill
      call is made and the run panics. *)
Definition two_phase {A} (run : M A) (w : world)
    (d : sized_resp) (size_call : call)
    (f : sized_resp) (fill_call : nat → nat → call)
    (size_err fill_err : lastErr → error) (decode : list Z → A) : Prop :=
  (sz_r d = 0 → is_errno (sz_err d) ERROR_INSUFFICIENT_BUFFER = false →
   run w = (Err (size_err (sz_err d)), after w [size_call]))
  ∧ ((sz_r d ≠ 0 ∨ is_errno (sz_err d) ERROR_INSUFFICIENT_BUFFER = true) →
     sz_used d ≠ 0%nat →
     run w = (if sz_r f =? 0 then Err (fill_err (sz_err f))
              else Ok (decode (written (make_slice (sz_used d)) (sz_data f))),
              after w [size_call; fill_call (sz_used d) (sz_used d)]))
  ∧ ((sz_r d ≠ 0 ∨ is_errno (sz_err d) ERROR_INSUFFICIENT_BUFFER = true) →
     sz_used d = 0%nat →
     run w = (Panic IndexOutOfRange, after w [size_call])).

(** Classes of calls: anything but [EvtNext], anything but
    [EvtOpenPublisherMetadata], and neither of the two. *)
Definition not_next (c : call) : bool :=
  match c with EvtNext _ _ _ _ => false | _ => true end.

Definition not_open (c : call) : bool :=
  match c with EvtOpenPublisherMetadata _ _ => false | _ => true end.

Definition quiet (c : call) : bool := not_next c && not_open c.

(** [w'] has the trace of [w] and, after it, calls of class [C] only. *)
Definition grows_by (C : call → bool) (w w' : world) : Prop :=
  ∃ calls, trace w' = trace w ++ calls ∧ forallb C calls = true.


Definition loop_sound (m : M (list eventRecord)) (w : world) : Prop :=
  cache_sound w →
  opened_once (snd (m w)) ∧ (is_ok (fst (m w)) = true → cache_sound (snd (m w))).

(** ** Vocabulary of the further properties *)

Definition is_panic {A} (o : outcome A) : bool :=
  match o with Panic _ => true | _ => false end.

(** [o] is no error outside the class [C]. *)
Definition errors_in {A} (C : error → bool) (o : outcome A) : bool :=
  match o with Err e => C e | _ => true end.

(** The errors that arise inside the loop of [fetchEvents], and those
    [fetchEvents] can return. *)
Definition loop_error (e : error) : bool :=
  match e with
  | ErrEvtNext _ | ErrEvtRenderSize _ | ErrEvtRender _ | ErrParseXML | ErrParseTime
  | ErrPublisherUTF16 | ErrEvtOpenPublisherMetadata _
  | ErrEvtFormatMessageSize _ | ErrEvtFormatMessage _ => true
  | _ => false
  end.

Definition fetch_error (e : error) : bool :=
  match e with
  | ErrQueryUTF16 | ErrPathUTF16 | ErrEvtQuery _ => true
  | _ => loop_error e
  end.

(** The ways [main] ends: success, a crash, the JSON failure, or an error
    that is the unsupported log, the failed query or one of the loop. *)
Definition main_exit_ok (x : exit) : bool :=
  match x with
  | Exit2 (Some (ErrUnsupportedLog _)) | Exit2 (Some (ErrEvtQuery _)) => true
  | Exit2 (Some e) => loop_error e
  | _ => true
  end.

Definition canonical_channels : list string := ["Application"; "System"; "Setup"].

Definition severities : list string := ["Information"; "Warning"; "Error"; "Unknown"].

(** A record as [parseEvent] builds them: a level of the table and a
    message without white space around it. *)
Definition well_formed (r : eventRecord) : Prop :=
  In (Level r) severities ∧ TrimSpace (Message r) = Message r.

Definition nonzero (h : Z) : bool := negb (h =? 0).

(** The slice a call of [EvtNext] made [evtNextBatch] return, and the
    handles a trace handed to the loop this way. *)
Definition delivered (c : call) : list Z :=
  match c with
  | EvtNext _ batch _ resp =>
      if nx_r resp =? 0 then []
      else if (nx_returned resp <=? batch)%nat
           then firstn (nx_returned resp) (written (make_slice batch) (nx_handles resp))
           else []
  | _ => []
  end.

Definition delivered_handles (t : list call) : list Z := flat_map delivered t.

(** The event handles a trace rendered. *)
Definition rendered_handles (t : list call) : list Z :=
  omap (fun c => match c with EvtRender h _ _ _ => Some h | _ => None end) t.

(** The metadata handles a trace opened. *)
Definition opened_handles (t : list call) : list Z :=
  omap (fun c => match c with
                 | EvtOpenPublisherMetadata _ h => if h =? 0 then None else Some h
                 | _ => None
                 end) t.

(** Every metadata handle opened is the one cached for its provider. *)
Definition opened_cached (w : world) : Prop :=
  ∀ p h, In (EvtOpenPublisherMetadata p h) (trace w) → h ≠ 0 → handles w !! p = Some h.

(** A subsystem that knows no publisher, and one that refuses the query
    (ERROR_ACCESS_DENIED). *)
Definition no_publisher_backend : backend := {|
  be_EvtQuery := fun _ _ _ _ => (100, Errno 0);
  be_EvtRender := fun _ _ _ bufSize => mock_sized bufSize [83; 118; 99; 0];
  be_EvtOpenPublisherMetadata := fun _ _ => (0, Errno 2);
  be_EvtFormatMessage := fun _ _ _ _ bufSize => mock_sized bufSize [32; 117; 112; 32; 0] |}.

Definition no_query_backend : backend := {|
  be_EvtQuery := fun _ _ _ _ => (0, Errno 5);
  be_EvtRender := fun _ _ _ bufSize => mock_sized bufSize [83; 118; 99; 0];
  be_EvtOpenPublisherMetadata := fun _ _ => (200, Errno 0);
  be_EvtFormatMessage := fun _ _ _ _ bufSize => mock_sized bufSize [32; 117; 112; 32; 0] |}.

(** The calls [parseEvent] can make for the event [hEvt]: rendering and
    formatting that event, and opening a publisher. *)
Definition event_call (hEvt : Z) (c : call) : bool :=
  match c with
  | EvtRender h _ _ _ => h =? hEvt
  | EvtFormatMessage _ h _ _ _ => h =? hEvt
  | EvtOpenPublisherMetadata _ _ => true
  | _ => false
  end.

Definition any_call (c : call) : bool := true.

(** The largest lookback, in minutes, whose milliseconds fit Go's [int]. *)
Definition max_minutes : Z := 153722867280912.

(** Calls that pass no zero handle to [EvtClose]. *)
Definition no_zero_close (c : call) : bool :=
  match c with EvtClose h => nonzero h | _ => true end.

(** Every event handle rendered so far is closed, a zero handle apart. *)
Definition rendered_closed (w : world) : Prop :=
  Forall (fun h => h = 0 ∨ In h (closed_handles (trace w))) (rendered_handles (trace w)).

(** A loop [m] started in [w] with the records [results] that ends below
    the cap has closed every handle delivered to it, in order, and made one
    record of each. *)
Definition all_closed (maxEvents : Z) (m : M (list eventRecord))
    (results : list eventRecord) (w : world) : Prop :=
  ∀ recs,
    fst (m w) = Ok recs →
    Z.of_nat (length recs) < maxEvents →
    ∃ D, delivered_handles (trace (snd (m w))) = delivered_handles (trace w) ++ D
         ∧ closed_handles (trace (snd (m w)))
           = closed_handles (trace w) ++ List.filter nonzero D
         ∧ length recs = (length results + length D)%nat.

(** * Properties *)

(** ** The level table *)

(** C8. [mapLevel] is a total function with a closed table: 2, 3 and 4 give
    Error, Warning and Information, 99 and 0 give Unknown, and so does every
    other level; there is no fifth outcome. *)
Theorem mapLevel_total (level : Z) :
  (mapLevel 2 = "Error" ∧ mapLevel 3 = "Warning" ∧ mapLevel 4 = "Information"
   ∧ mapLevel 99 = "Unknown" ∧ mapLevel 0 = "Unknown")
  ∧ ((level = 2 ∧ mapLevel level = "Error")
     ∨ (level = 3 ∧ mapLevel level = "Warning")
     ∨ (level = 4 ∧ mapLevel level = "Information")
     ∨ (level ≠ 2 ∧ level ≠ 3 ∧ level ≠ 4 ∧ mapLevel level = "Unknown")).
Proof.
  split; [repeat split; reflexivity |].
  unfold mapLevel.
  destruct (Z.eqb_spec level 2) as [-> | H2]; [left; done |].
  destruct (Z.eqb_spec level 3) as [-> | H3]; [right; left; done |].
  destruct (Z.eqb_spec level 4) as [-> | H4]; [right; right; left; done |].
  right; right; right; done.
Qed.

(** ** Strings as lists of bytes *)

Lemma string_app_cons (c : ascii) (a b : string) : String c a +:+ b = String c (a +:+ b).
Proof. reflexivity. Qed.

Lemma string_app_assoc (a b c : string) : (a +:+ b) +:+ c = a +:+ (b +:+ c).
Proof.
  induction a as [| x a IH]; [reflexivity |].
  rewrite !string_app_cons. by rewrite IH.
Qed.

Lemma list_of_app (a b : string) :
  String.list_ascii_of_string (a +:+ b)
  = String.list_ascii_of_string a ++ String.list_ascii_of_string b.
Proof.
  induction a as [| x a IH]; [reflexivity |].
  rewrite string_app_cons. cbn. by rewrite IH.
Qed.

Lemma string_of_app (a b : list ascii) :
  String.string_of_list_ascii (a ++ b)
  = String.string_of_list_ascii a +:+ String.string_of_list_ascii b.
Proof.
  induction a as [| x a IH]; [reflexivity |].
  cbn [app String.string_of_list_ascii]. rewrite string_app_cons. by rewrite IH.
Qed.

(** ** Stripping patterns *)

Lemma cut_prefix_app (p l r : list ascii) : cut_prefix p l = Some r → l = p ++ r.
Proof.
  revert l. induction p as [| a p IH]; intros l; cbn.
  - by intros [= ->].
  - destruct l as [| b l]; [discriminate |].
    destruct (Ascii.eqb_spec a b) as [-> | _]; [| discriminate].
    intros H. by rewrite (IH _ H).
Qed.

Lemma cut_prefix_of_app (p r : list ascii) : cut_prefix p (p ++ r) = Some r.
Proof.
  induction p as [| a p IH]; cbn; [done |]. by rewrite Ascii.eqb_refl.
Qed.

Lemma strip_one_some (pats : list (list ascii)) (l r : list ascii) :
  strip_one pats l = Some r → ∃ p, In p pats ∧ l = p ++ r.
Proof.
  induction pats as [| p ps IH]; cbn; [discriminate |].
  destruct (cut_prefix p l) as [r' |] eqn:Hp.
  - intros [= ->]. exists p. split; [by left | by apply cut_prefix_app].
  - intros (q & Hq & E)%IH. exists q. split; [by right | done].
Qed.

Lemma strip_one_in (pats : list (list ascii)) (p l r : list ascii) :
  In p pats → cut_prefix p l = Some r → strip_one pats l ≠ None.
Proof.
  induction pats as [| q ps IH]; cbn; [done |].
  intros [-> | Hin] Hp.
  - by rewrite Hp.
  - destruct (cut_prefix q l); [done | by apply IH].
Qed.

Section Strip.

Variable pats : list (list ascii).

(** A text that starts with a pattern still does after something is put
    behind it. *)
Lemma strip_one_extend (l x : list ascii) :
  strip_one pats (l ++ x) = None → strip_one pats l = None.
Proof.
  intros Hnone. destruct (strip_one pats l) as [r |] eqn:Hl; [| done].
  apply strip_one_some in Hl as (p & Hin & ->).
  destruct (strip_one_in pats p ((p ++ r) ++ x) (r ++ x) Hin); [| done].
  rewrite <- app_assoc. apply cut_prefix_of_app.
Qed.

Lemma strip_all_suffix (n : nat) (l : list ascii) : ∃ w, l = w ++ strip_all pats n l.
Proof.
  revert l. induction n as [| n IH]; intros l; cbn; [by exists [] |].
  destruct (strip_one pats l) as [r |] eqn:Hl; [| by exists []].
  apply strip_one_some in Hl as (p & _ & ->).
  destruct (IH r) as [w Hw]. exists (p ++ w). by rewrite <- app_assoc, <- Hw.
Qed.

Lemma strip_all_id (n : nat) (l : list ascii) :
  strip_one pats l = None → strip_all pats n l = l.
Proof. intros H. destruct n; cbn; [done |]. by rewrite H. Qed.

Hypothesis pats_nonempty : Forall (fun p => p ≠ []) pats.

Lemma strip_one_shorter (l r : list ascii) :
  strip_one pats l = Some r → (length r < length l)%nat.
Proof.
  intros (p & Hin & ->)%strip_one_some.
  assert (p ≠ []) by (by apply (proj1 (List.Forall_forall _ pats) pats_nonempty)).
  rewrite length_app. destruct p; [done | cbn; lia].
Qed.

(** With fuel for every byte, nothing is left to strip. *)
Lemma strip_all_clean (n : nat) (l : list ascii) :
  (length l ≤ n)%nat → strip_one pats (strip_all pats n l) = None.
Proof.
  revert l. induction n as [| n IH]; intros l Hlen; cbn.
  - destruct l; [| cbn in Hlen; lia].
    destruct (strip_one pats []) as [r |] eqn:Hl; [| done].
    apply strip_one_shorter in Hl. cbn in Hl. lia.
  - destruct (strip_one pats l) as [r |] eqn:Hl; [| done].
    apply IH. apply strip_one_shorter in Hl. lia.
Qed.

(** More fuel than the length changes nothing. *)
Lemma strip_all_fuel (n : nat) (l : list ascii) :
  (length l ≤ n)%nat → strip_all pats n l = strip_all pats (length l) l.
Proof.
  intros Hlen.
  pose proof (strip_all_clean (length l) l (Nat.le_refl _)) as Hclean.
  revert n Hlen Hclean. generalize (length l) at 2 3 as m.
  intros m. revert l. induction m as [| m IH]; intros l n Hlen Hclean.
  - cbn in *. by apply strip_all_id.
  - destruct n as [| n].
    + destruct l; [| cbn in Hlen; lia]. cbn in *.
      destruct (strip_one pats []) as [r |] eqn:Hl; [| done].
      apply strip_one_shorter in Hl. cbn in Hl. lia.
    + cbn in *. destruct (strip_one pats l) as [r |] eqn:Hl; [| done].
      pose proof (strip_one_shorter _ _ Hl).
      destruct (Nat.le_gt_cases (length r) n) as [Hle | Hgt]; [by apply IH | lia].
Qed.

End Strip.

Lemma space_runes_nonempty : Forall (fun p => p ≠ []) space_runes.
Proof. repeat constructor; discriminate. Qed.

Lemma space_runes_rev_nonempty : Forall (fun p => p ≠ []) (map (@rev ascii) space_runes).
Proof. repeat constructor; discriminate. Qed.

Lemma trim_left_clean (l : list ascii) : strip_one space_runes (trim_left l) = None.
Proof. apply strip_all_clean; [apply space_runes_nonempty | done]. Qed.

(** What is trimmed on both sides cannot be trimmed any further. *)
Lemma trim_idem (l : list ascii) :
  trim_right (trim_left (trim_right (trim_left l))) = trim_right (trim_left l).
Proof.
  pose proof (trim_left_clean l) as Hleft.
  set (a := trim_left l) in *. unfold trim_right at 2.
  set (c := strip_all (map (@rev ascii) space_runes) (length a) (rev a)).
  assert (Hc : strip_one (map (@rev ascii) space_runes) c = None).
  { apply strip_all_clean; [apply space_runes_rev_nonempty | by rewrite length_rev]. }
  destruct (strip_all_suffix (map (@rev ascii) space_runes) (length a) (rev a)) as [w Hw].
  fold c in Hw.
  assert (Ha : a = rev c ++ rev w).
  { rewrite <- (rev_involutive a), Hw. apply rev_app_distr. }
  assert (Hb : strip_one space_runes (rev c) = None).
  { apply (strip_one_extend _ _ (rev w)). by rewrite <- Ha. }
  unfold trim_left at 1. rewrite (strip_all_id _ _ _ Hb).
  unfold trim_right. rewrite rev_involutive. by rewrite (strip_all_id _ _ _ Hc).
Qed.

Lemma TrimSpace_idem (s : string) : TrimSpace (TrimSpace s) = TrimSpace s.
Proof.
  unfold TrimSpace. rewrite String.list_ascii_of_string_of_list_ascii. by rewrite trim_idem.
Qed.

(** ** ASCII text *)

Lemma strip_one_ascii (c : ascii) (l : list ascii) :
  is_ascii_byte c = true →
  strip_one space_runes (c :: l) = if is_space c then Some l else None.
Proof.
  destruct c as [[] [] [] [] [] [] [] []]; first [discriminate | intros _; reflexivity].
Qed.

Lemma strip_one_rev_ascii (c : ascii) (l : list ascii) :
  is_ascii_byte c = true →
  strip_one (map (@rev ascii) space_runes) (c :: l) = if is_space c then Some l else None.
Proof.
  destruct c as [[] [] [] [] [] [] [] []]; first [discriminate | intros _; reflexivity].
Qed.

(** On ASCII text, stripping white-space runes is skipping ASCII white
    space. *)
Lemma strip_all_ascii (pats : list (list ascii)) :
  strip_one pats [] = None →
  (∀ c l, is_ascii_byte c = true →
          strip_one pats (c :: l) = if is_space c then Some l else None) →
  ∀ n l, forallb is_ascii_byte l = true → (length l ≤ n)%nat →
         strip_all pats n l = skip_spaces l.
Proof.
  intros Hnil Hcons. induction n as [| n IH]; intros l Hascii Hlen.
  - destruct l; [done | cbn in Hlen; lia].
  - destruct l as [| c l]; cbn [strip_all skip_spaces]; [by rewrite Hnil |].
    cbn in Hascii. apply andb_prop in Hascii as [Hc Hl].
    rewrite (Hcons _ _ Hc). destruct (is_space c); [| done].
    apply IH; [done | cbn in Hlen; lia].
Qed.

Lemma skip_spaces_suffix (l : list ascii) :
  ∃ p, l = p ++ skip_spaces l ∧ forallb is_space p = true.
Proof.
  induction l as [| c l (p & E & Hp)]; cbn; [by exists [] |].
  destruct (is_space c) eqn:Hc; [| by exists []].
  exists (c :: p). cbn. by rewrite Hc, <- E.
Qed.

Lemma skip_spaces_app (p x : list ascii) :
  forallb is_space p = true → skip_spaces (p ++ x) = skip_spaces x.
Proof.
  induction p as [| c p IH]; cbn; [done |].
  intros [Hc Hp]%andb_prop. rewrite Hc. by apply IH.
Qed.

Lemma skip_spaces_none (l : list ascii) :
  forallb (fun c => negb (is_space c)) l = true → skip_spaces l = l.
Proof.
  destruct l as [| c l]; cbn; [done |].
  intros [Hc _]%andb_prop. by destruct (is_space c).
Qed.

Lemma forallb_rev {A} (f : A → bool) (l : list A) : forallb f (rev l) = forallb f l.
Proof.
  induction l as [| x l IH]; cbn; [done |].
  rewrite forallb_app, IH. cbn. rewrite andb_true_r. apply andb_comm.
Qed.

Lemma trim_left_ascii (l : list ascii) :
  forallb is_ascii_byte l = true → trim_left l = skip_spaces l.
Proof.
  intros H. apply strip_all_ascii; [done | apply strip_one_ascii | done | done].
Qed.

Lemma trim_right_ascii (l : list ascii) :
  forallb is_ascii_byte l = true → trim_right l = rev (skip_spaces (rev l)).
Proof.
  intros H. unfold trim_right. f_equal.
  apply strip_all_ascii; [done | apply strip_one_rev_ascii | by rewrite forallb_rev |].
  by rewrite length_rev.
Qed.

(** An ASCII text is its trimmed form between two runs of ASCII white
    space, and the trimmed form is ASCII. *)
Lemma trim_ascii_split (l : list ascii) :
  forallb is_ascii_byte l = true →
  ∃ p q, l = p ++ trim_right (trim_left l) ++ q
         ∧ forallb is_space p = true ∧ forallb is_space q = true
         ∧ forallb is_ascii_byte (trim_right (trim_left l)) = true.
Proof.
  intros H. rewrite (trim_left_ascii _ H).
  destruct (skip_spaces_suffix l) as (p & E & Hp).
  assert (Ha : forallb is_ascii_byte (skip_spaces l) = true).
  { rewrite E, forallb_app in H. by apply andb_prop in H as [_ ?]. }
  rewrite (trim_right_ascii _ Ha).
  destruct (skip_spaces_suffix (rev (skip_spaces l))) as (q & E' & Hq).
  exists p, (rev q).
  assert (Hsplit : skip_spaces l = rev (skip_spaces (rev (skip_spaces l))) ++ rev q).
  { rewrite <- rev_app_distr, <- E'. by rewrite rev_involutive. }
  split; [by rewrite <- Hsplit |]. split; [done |]. split; [by rewrite forallb_rev |].
  rewrite Hsplit, forallb_app in Ha. by apply andb_prop in Ha as [? _].
Qed.

(** Trimming takes the white space off a text that has none inside. *)
Lemma trim_ascii_core (p c q : list ascii) :
  forallb is_space p = true → forallb is_space q = true →
  forallb (fun x => is_ascii_byte x && negb (is_space x)) c = true →
  trim_right (trim_left (p ++ c ++ q)) = c.
Proof.
  intros Hp Hq Hc.
  assert (Hsa : ∀ l, forallb is_space l = true → forallb is_ascii_byte l = true).
  { intros l Hl. apply forallb_forall. intros x Hx.
    pose proof (proj1 (forallb_forall _ _) Hl x Hx) as Hs.
    destruct x as [[] [] [] [] [] [] [] []]; first [done | discriminate]. }
  assert (Hca : forallb is_ascii_byte c = true).
  { apply forallb_forall. intros x Hx.
    by apply (proj1 (forallb_forall _ _) Hc x) in Hx as [? _]%andb_prop. }
  assert (Hcn : forallb (fun x => negb (is_space x)) c = true).
  { apply forallb_forall. intros x Hx.
    by apply (proj1 (forallb_forall _ _) Hc x) in Hx as [_ ?]%andb_prop. }
  rewrite trim_left_ascii by (by rewrite !forallb_app, (Hsa _ Hp), Hca, (Hsa _ Hq)).
  rewrite skip_spaces_app by done.
  destruct c as [| x c].
  - cbn [app]. destruct (skip_spaces_suffix q) as (q' & E & _).
    assert (Hnil : skip_spaces q = []).
    { clear -Hq. induction q as [| y q IH]; cbn; [done |].
      cbn in Hq. apply andb_prop in Hq as [-> Hq]. by apply IH. }
    by rewrite Hnil.
  - assert (Hx : is_space x = false).
    { cbn in Hcn. apply andb_prop in Hcn as [Hx _]. by destruct (is_space x). }
    change ((x :: c) ++ q) with (x :: (c ++ q)) at 1. cbn [skip_spaces]. rewrite Hx.
    change (x :: (c ++ q)) with ((x :: c) ++ q).
    rewrite trim_right_ascii by (by rewrite forallb_app, Hca, (Hsa _ Hq)).
    rewrite rev_app_distr, skip_spaces_app by (by rewrite forallb_rev).
    rewrite skip_spaces_none by (by rewrite forallb_rev).
    apply rev_involutive.
Qed.

(** ** Letters *)

Lemma code_byte_of (n : nat) : (n < 256)%nat → code (byte_of n) = n.
Proof. apply nat_ascii_embedding. Qed.

Lemma byte_of_code (c : ascii) : byte_of (code c) = c.
Proof. apply ascii_nat_embedding. Qed.

Lemma same_letter_lower (x : ascii) : same_letter x (lower_char x) = true.
Proof. destruct x as [[] [] [] [] [] [] [] []]; reflexivity. Qed.

Lemma eq_ignoring_case_lower (s : string) : eq_ignoring_case s (lower_bytes s) = true.
Proof. induction s as [| x s IH]; cbn; [done |]. by rewrite same_letter_lower, IH. Qed.

(** A byte that is, up to case, a small letter is an ASCII letter, and
    its lower case is that small letter. *)
Lemma same_letter_small (x y : ascii) :
  same_letter x y = true → is_lower y = true →
  lower_char x = y ∧ is_ascii_byte x = true ∧ is_space x = false.
Proof.
  intros H [Hlo%Nat.leb_le Hhi%Nat.leb_le]%andb_prop.
  assert (Hcase : (x = y ∧ is_upper x = false)
                  ∨ (is_upper x = true ∧ code y = (code x + 32)%nat)).
  { unfold same_letter in H.
    apply orb_prop in H as [H | H]; [apply orb_prop in H as [H | H] |].
    - apply Ascii.eqb_eq in H as ->. left. split; [done |].
      apply andb_false_iff. right. apply Nat.leb_gt. lia.
    - apply andb_prop in H as [Hup Heq%Nat.eqb_eq]. by right.
    - apply andb_prop in H as [[_ H2%Nat.leb_le]%andb_prop _]. lia. }
  assert (Hx : (65 <= code x <= 122)%nat).
  { destruct Hcase as [[-> _] | [[H1%Nat.leb_le H2%Nat.leb_le]%andb_prop _]]; lia. }
  split; [| split].
  - unfold lower_char. destruct Hcase as [[-> ->] | [-> Heq]]; [done |].
    by rewrite <- Heq, byte_of_code.
  - apply Nat.ltb_lt. lia.
  - apply orb_false_iff. split.
    + apply andb_false_iff. right. apply Nat.leb_gt. lia.
    + apply Nat.eqb_neq. lia.
Qed.

Lemma eq_ignoring_case_small (core key : string) :
  eq_ignoring_case core key = true →
  forallb is_lower (String.list_ascii_of_string key) = true →
  lower_bytes core = key
  ∧ forallb (fun x => is_ascii_byte x && negb (is_space x))
      (String.list_ascii_of_string core) = true.
Proof.
  revert key. induction core as [| x core IH]; intros [| y key];
    cbn [eq_ignoring_case lower_bytes String.list_ascii_of_string forallb]; try done.
  intros [Hxy Hrest]%andb_prop [Hy Hkey]%andb_prop.
  destruct (same_letter_small _ _ Hxy Hy) as (-> & -> & ->).
  destruct (IH _ Hrest Hkey) as [-> ->]. done.
Qed.

Lemma accepted_keys_small (key : string) :
  In key accepted_keys → forallb is_lower (String.list_ascii_of_string key) = true.
Proof. intros [<- | [<- | [<- | [<- | []]]]]; reflexivity. Qed.

(** ** The channel whitelist *)

Lemma normalizeLogName_ok_iff (lib : golib) (name : string) :
  is_ok (normalizeLogName lib name)
  = existsb (String.eqb (ToLower lib (TrimSpace name))) accepted_keys.
Proof.
  unfold normalizeLogName, accepted_keys; cbn [existsb].
  repeat match goal with
         | |- context [String.eqb ?a ?b] => destruct (String.eqb a b); cbn
         end; reflexivity.
Qed.

Lemma normalizeLogName_rejects (lib : golib) (name : string) :
  existsb (String.eqb (ToLower lib (TrimSpace name))) accepted_keys = false →
  normalizeLogName lib name = Err (ErrUnsupportedLog name).
Proof.
  unfold normalizeLogName, accepted_keys; cbn [existsb].
  repeat match goal with
         | |- context [String.eqb ?a ?b] => destruct (String.eqb a b); cbn
         end; intros; done.
Qed.

(** Which ASCII names are accepted, said without [TrimSpace] and
    [ToLower]: the names that are one of the keys, up to the case of its
    letters, between two runs of white space. *)
Lemma normalizeLogName_ascii (lib : golib) (name : string) :
  is_ascii name = true →
  is_ok (normalizeLogName lib name) = true
  ↔ ∃ pre core post key,
      name = pre +:+ core +:+ post
      ∧ all_space pre = true ∧ all_space post = true
      ∧ In key accepted_keys ∧ eq_ignoring_case core key = true.
Proof.
  intros Hascii. rewrite normalizeLogName_ok_iff. unfold is_ascii in Hascii. split.
  - intros (key & Hin & Hkey%String.eqb_eq)%existsb_exists.
    destruct (trim_ascii_split _ Hascii) as (p & q & E & Hp & Hq & Ht).
    exists (String.string_of_list_ascii p), (TrimSpace name),
      (String.string_of_list_ascii q), key.
    split; [| split; [| split; [| split]]].
    + unfold TrimSpace. rewrite <- !string_of_app, <- E.
      by rewrite String.string_of_list_ascii_of_string.
    + unfold all_space. by rewrite String.list_ascii_of_string_of_list_ascii.
    + unfold all_space. by rewrite String.list_ascii_of_string_of_list_ascii.
    + done.
    + rewrite <- Hkey. unfold ToLower, is_ascii, TrimSpace.
      rewrite String.list_ascii_of_string_of_list_ascii, Ht.
      apply eq_ignoring_case_lower.
  - intros (pre & core & post & key & -> & Hpre & Hpost & Hin & Hcase).
    destruct (eq_ignoring_case_small _ _ Hcase (accepted_keys_small _ Hin)) as [Hlow Hcore].
    apply existsb_exists. exists key. split; [done |]. apply String.eqb_eq.
    unfold TrimSpace. rewrite !list_of_app, (trim_ascii_core _ _ _ Hpre Hpost Hcore).
    rewrite String.string_of_list_ascii_of_string.
    unfold ToLower. replace (is_ascii core) with true; [done |].
    symmetry. unfold is_ascii. apply forallb_forall. intros x Hx.
    by apply (proj1 (forallb_forall _ _) Hcore x) in Hx as [? _]%andb_prop.
Qed.

(** Some names: letter case and white space, ASCII or not, do not matter;
    white space inside the name does. *)
Lemma normalizeLogName_samples (lib : golib) :
  normalizeLogName lib " SyStEm " = Ok "System"
  ∧ normalizeLogName lib
      (String.string_of_list_ascii (bytes [194; 160]%nat) +:+ "system"
         +:+ String.string_of_list_ascii (bytes [194; 133; 227; 128; 128]%nat))
    = Ok "System"
  ∧ normalizeLogName lib "SETUP" = Ok "Setup"
  ∧ normalizeLogName lib "set up" = Err (ErrUnsupportedLog "set up")
  ∧ normalizeLogName lib "Security" = Err (ErrUnsupportedLog "Security").
Proof. repeat split; reflexivity. Qed.


(** C3, as the code has it.  A channel name whose form after
    [strings.TrimSpace] and [strings.ToLower] is none of application,
    system, setup and the empty string makes [main] stop with the
    unsupported-log error before any native call: the state, and with it
    the trace, is left as it was.  Among the names of ASCII bytes these are
    the names that are none of the four, up to the case of the letters,
    however white space is taken off their ends. *)
Theorem main_rejects_unknown_channel (lib : golib) (be : backend)
    (name provider : string) (minutes maxEvents : Z) (script : list next_resp)
    (w : world) :
  (existsb (String.eqb (ToLower lib (TrimSpace name))) accepted_keys = false →
   main lib be name provider minutes maxEvents script w
   = (Exit2 (Some (ErrUnsupportedLog name)), w))
  ∧ (is_ascii name = true →
     (∀ pre core post key,
        name = pre +:+ core +:+ post →
        all_space pre = true → all_space post = true →
        In key accepted_keys → eq_ignoring_case core key = false) →
     main lib be name provider minutes maxEvents script w
     = (Exit2 (Some (ErrUnsupportedLog name)), w)).
Proof.
  assert (Hkey : existsb (String.eqb (ToLower lib (TrimSpace name))) accepted_keys = false →
                 main lib be name provider minutes maxEvents script w
                 = (Exit2 (Some (ErrUnsupportedLog name)), w)).
  { intros H. unfold main. rewrite (normalizeLogName_rejects _ _ H). reflexivity. }
  split; [exact Hkey |].
  intros Hascii Hnone. apply Hkey. rewrite <- normalizeLogName_ok_iff.
  destruct (is_ok (normalizeLogName lib name)) eqn:Hok; [| done].
  apply (normalizeLogName_ascii lib name Hascii) in Hok
    as (pre & core & post & key & E & Hpre & Hpost & Hin & Hcase).
  by rewrite (Hnone pre core post key E Hpre Hpost Hin) in Hcase.
Qed.

Lemma main_rejects_unknown_channel_witness :
  existsb (String.eqb (ToLower mock_lib (TrimSpace "Security"))) accepted_keys = false
  ∧ main mock_lib mock_backend "Security" "" 10 4 mock_script start
    = (Exit2 (Some (ErrUnsupportedLog "Security")), start)
  ∧ trace start = [].
Proof.
  split; [reflexivity |].
  split; [| reflexivity].
  apply (proj1 (main_rejects_unknown_channel mock_lib mock_backend "Security" "" 10 4
                  mock_script start)).
  reflexivity.
Defined.

(** C3, as stated, fails at the empty name: it is none of Application,
    System and Setup, yet the run is not refused; it queries the
    Application channel and goes through 26 native calls. *)
Lemma empty_channel_is_queried :
  names_channel "" = false
  ∧ fst (main mock_lib mock_backend "" "" 10 4 mock_script start) = Exit0 "[]"
  ∧ hd_error (trace (snd (main mock_lib mock_backend "" "" 10 4 mock_script start)))
    = Some (EvtQuery "Application"
              "*[System[TimeCreated[timediff(@SystemTime) <= 600000]]]" 4097 100)
  ∧ length (trace (snd (main mock_lib mock_backend "" "" 10 4 mock_script start)))
    = 26%nat.
Proof. repeat split; vm_compute; reflexivity. Qed.

(** ** The cap reached in the middle of a batch *)

(** C1, on the code.  With the batches [3 handles; 2 handles; exhausted] and
    a cap of 4 the run returns 4 records; five result handles were fetched,
    and the close routine ran on the first four of them only (then on the
    metadata handle 200 and the query handle 100): the fifth is left
    open. *)
Theorem fetchEvents_cap_mid_batch :
  length (records_of
            (fst (fetchEvents mock_lib mock_backend mock_script "Application" "" 10 4 start)))
  = 4%nat
  ∧ fetched_handles
      (trace (snd (fetchEvents mock_lib mock_backend mock_script "Application" "" 10 4 start)))
    = [1; 2; 3; 4; 5]
  ∧ closed_handles
      (trace (snd (fetchEvents mock_lib mock_backend mock_script "Application" "" 10 4 start)))
    = [1; 2; 3; 4; 200; 100].
Proof. repeat split; vm_compute; reflexivity. Qed.

(** ** The first element of an empty buffer *)

(** C9, on the code.  When the size call is accepted and reports a size of
    zero, the buffer is empty and taking the address of its first element
    panics, in [renderEventXML] (size call succeeding outright) as in
    [formatMessage] (size call answering "buffer too small"); no fill call
    is made. *)
Theorem two_phase_zero_size_panics :
  renderEventXML mock_lib zero_size_backend 1 start
  = (Panic IndexOutOfRange, after start [EvtRender 1 evtRenderEventXML 0 0])
  ∧ formatMessage mock_lib zero_size_backend 200 1 start
    = (Panic IndexOutOfRange, after start [EvtFormatMessage 200 1 evtFormatMessageEvent 0 0]).
Proof. split; reflexivity. Qed.

(** ** The cap *)

Section Cap.

Variable lib : golib.
Variable be : backend.
Variable hQuery : Z.
Variable maxEvents : Z.

Lemma renderBatch_cap (batch : list Z) :
  ∀ results w,
    Z.of_nat (length results) < maxEvents →
    Z.of_nat (length (records_of (fst (renderBatch lib be maxEvents batch results w))))
    ≤ maxEvents.
Proof.
  induction batch as [| hEvt rest IH]; intros results w Hlen; cbn.
  - lia.
  - unfold bind, attempt.
    destruct (parseEvent lib be hEvt w) as [[rec | e | p] w1]; cbn; try lia.
    + destruct (evtCloseHandle hEvt w1) as [[[] | e | p] w2]; cbn; try lia.
      destruct (Z.geb_spec (Z.of_nat (length (results ++ [rec]))) maxEvents) as [Hge | Hlt].
      * cbn. rewrite length_app in *. cbn in *. lia.
      * apply IH. lia.
    + destruct (evtCloseHandle hEvt w1) as [[[] | e' | p] w2]; cbn; lia.
Qed.

Lemma fetchLoop_unfold (script : list next_resp) (results : list eventRecord) :
  fetchLoop lib be hQuery maxEvents script results
  = if Z.of_nat (length results) <? maxEvents then
      match script with
      | resp :: rest =>
          fetchStep lib be hQuery maxEvents resp results
            (fetchLoop lib be hQuery maxEvents rest)
      | [] => fetchStep lib be hQuery maxEvents no_more_items results ret
      end
    else ret results.
Proof. destruct script; reflexivity. Qed.

Lemma fetchLoop_cap (script : list next_resp) :
  ∀ results w,
    Z.of_nat (length results) ≤ maxEvents →
    Z.of_nat (length (records_of (fst (fetchLoop lib be hQuery maxEvents script results w))))
    ≤ maxEvents.
Proof.
  assert (Hstep : ∀ resp results again w,
            Z.of_nat (length results) < maxEvents →
            (∀ results' w', Z.of_nat (length results') ≤ maxEvents →
               Z.of_nat (length (records_of (fst (again results' w')))) ≤ maxEvents) →
            Z.of_nat (length (records_of
                                (fst (fetchStep lib be hQuery maxEvents resp results again w))))
            ≤ maxEvents).
  { intros resp results again w Hlen Hagain. unfold fetchStep, bind, attempt.
    destruct (evtNextBatch resp hQuery evtNextBatchSize w) as [[batch | e | p] w1];
      cbn; try lia.
    - pose proof (renderBatch_cap batch results w1 Hlen) as Hb.
      destruct (renderBatch lib be maxEvents batch results w1) as [[recs | e | p] w2];
        cbn in *; try lia.
      by apply Hagain.
    - destruct e; cbn; lia. }
  induction script as [| resp rest IH]; intros results w Hlen;
    rewrite fetchLoop_unfold;
    destruct (Z.ltb_spec (Z.of_nat (length results)) maxEvents) as [Hlt | Hge];
    try (cbn; lia).
  - apply Hstep; [done |]. intros results' w' H'. cbn. lia.
  - apply Hstep; [done |]. intros results' w' H'. by apply IH.
Qed.

End Cap.

(** C2. For a positive cap, whatever the channel, the provider filter, the
    lookback, the subsystem and its answers, [fetchEvents] returns no more
    records than the cap (none at all when it fails). *)
Theorem fetchEvents_at_most_max (lib : golib) (be : backend) (script : list next_resp)
    (logName provider : string) (minutes maxEvents : Z) (w : world) :
  0 < maxEvents →
  Z.of_nat (length (records_of
                      (fst (fetchEvents lib be script logName provider minutes maxEvents w))))
  ≤ maxEvents.
Proof.
  intros Hpos. unfold fetchEvents.
  destruct (Z.leb_spec maxEvents 0) as [? | _]; [lia |].
  unfold bind, from_option, defer.
  destruct (UTF16PtrFromString _) as [queryPtr |]; cbn; [| lia].
  destruct (UTF16PtrFromString logName) as [pathPtr |]; cbn; [| lia].
  destruct (evtQuery be pathPtr queryPtr w) as [[hQuery | e | p] w1]; cbn; try lia.
  unfold make_results. destruct (maxEvents <=? max_slice_cap lib); cbn; [| lia].
  pose proof (fetchLoop_cap lib be hQuery maxEvents script []
                {| trace := trace w1; handles := ∅ |}) as Hloop.
  destruct (fetchLoop lib be hQuery maxEvents script [] _) as [r w2]; cbn in *.
  apply Hloop. lia.
Qed.

Lemma fetchEvents_at_most_max_witness :
  0 < 4
  ∧ Z.of_nat (length (records_of
                        (fst (fetchEvents mock_lib mock_backend mock_script
                                "Application" "" 10 4 start))))
    ≤ 4.
Proof.
  split; [lia |].
  apply (fetchEvents_at_most_max mock_lib mock_backend mock_script "Application" "" 10 4 start).
  lia.
Defined.

(** ** The two-phase calls *)

Lemma make_slice_length (n : nat) : length (make_slice n) = n.
Proof. apply repeat_length. Qed.

Lemma first_elem_ptr_nonempty (n : nat) (w : world) :
  n ≠ 0%nat → first_elem_ptr (make_slice n) w = (Ok tt, w).
Proof. destruct n; [done |]. reflexivity. Qed.

Lemma after_after (w : world) (c1 c2 : list call) :
  after (after w c1) c2 = after w (c1 ++ c2).
Proof. unfold after; cbn. by rewrite <- app_assoc. Qed.

Lemma evtCloseHandle_after (h : Z) (w : world) :
  evtCloseHandle h w = (Ok tt, after w (if h =? 0 then [] else [EvtClose h])).
Proof.
  unfold evtCloseHandle, procEvtClose, record, ret, after.
  destruct (h =? 0); [| done]. rewrite app_nil_r. by destruct w.
Qed.

Lemma accepted_size (d : sized_resp) (size_err : lastErr → error) :
  sz_r d ≠ 0 ∨ is_errno (sz_err d) ERROR_INSUFFICIENT_BUFFER = true →
  (if sz_r d =? 0
   then if negb (is_errno (sz_err d) ERROR_INSUFFICIENT_BUFFER)
        then fail (size_err (sz_err d)) else ret tt
   else ret tt) = ret tt.
Proof.
  intros Hacc. destruct (Z.eqb_spec (sz_r d) 0) as [Hz | Hnz]; [| done].
  destruct Hacc as [Hnz | ->]; [done | reflexivity].
Qed.

(** C6, on the code.  [renderEventXML] and [formatMessage] both go through
    the two phases: "buffer too small" on the size call is accepted and any
    other failure of it fails the record; for a discovered size that is not
    zero the fill call gets a buffer of exactly that size and must succeed,
    or the record fails with the render (format) error.  For a discovered
    size of zero there is no fill call and no error: the function
    panics. *)
Theorem two_phase_calls (lib : golib) (be : backend) (meta hEvt : Z) (w : world) :
  two_phase (renderEventXML lib be hEvt) w
    (be_EvtRender be (trace w) hEvt evtRenderEventXML 0)
    (EvtRender hEvt evtRenderEventXML 0 0)
    (be_EvtRender be (trace w ++ [EvtRender hEvt evtRenderEventXML 0 0]) hEvt
       evtRenderEventXML
       (sz_used (be_EvtRender be (trace w) hEvt evtRenderEventXML 0)))
    (EvtRender hEvt evtRenderEventXML)
    ErrEvtRenderSize ErrEvtRender (UTF16ToString lib)
  ∧ two_phase (formatMessage lib be meta hEvt) w
      (be_EvtFormatMessage be (trace w) meta hEvt evtFormatMessageEvent 0)
      (EvtFormatMessage meta hEvt evtFormatMessageEvent 0 0)
      (be_EvtFormatMessage be
         (trace w ++ [EvtFormatMessage meta hEvt evtFormatMessageEvent 0 0]) meta hEvt
         evtFormatMessageEvent
         (sz_used (be_EvtFormatMessage be (trace w) meta hEvt evtFormatMessageEvent 0)))
      (EvtFormatMessage meta hEvt evtFormatMessageEvent)
      ErrEvtFormatMessageSize ErrEvtFormatMessage
      (fun buf => TrimSpace (UTF16ToString lib buf)).
Proof.
  split.
  - set (d := be_EvtRender be (trace w) hEvt evtRenderEventXML 0).
    split; [| split].
    + intros Hr Herr.
      unfold renderEventXML, procEvtRender, bind, history, record; cbn.
      fold d. rewrite Hr, Herr. reflexivity.
    + intros Hacc Hused.
      unfold renderEventXML, procEvtRender, bind, history, record; cbn.
      fold d. rewrite (accepted_size d _ Hacc); cbn.
      rewrite (first_elem_ptr_nonempty _ _ Hused); cbn.
      rewrite make_slice_length.
      unfold after; cbn. rewrite <- app_assoc; cbn.
      match goal with |- context [if ?b then Err _ else _] => destruct b end; reflexivity.
    + intros Hacc Hused.
      unfold renderEventXML, procEvtRender, bind, history, record; cbn.
      fold d. rewrite (accepted_size d _ Hacc); cbn.
      rewrite Hused. reflexivity.
  - set (d := be_EvtFormatMessage be (trace w) meta hEvt evtFormatMessageEvent 0).
    split; [| split].
    + intros Hr Herr.
      unfold formatMessage, procEvtFormatMessage, bind, history, record; cbn.
      fold d. rewrite Hr, Herr. reflexivity.
    + intros Hacc Hused.
      unfold formatMessage, procEvtFormatMessage, bind, history, record; cbn.
      fold d. rewrite (accepted_size d _ Hacc); cbn.
      rewrite (first_elem_ptr_nonempty _ _ Hused); cbn.
      rewrite make_slice_length.
      unfold after; cbn. rewrite <- app_assoc; cbn.
      match goal with |- context [if ?b then Err _ else _] => destruct b end; reflexivity.
    + intros Hacc Hused.
      unfold formatMessage, procEvtFormatMessage, bind, history, record; cbn.
      fold d. rewrite (accepted_size d _ Hacc); cbn.
      rewrite Hused. reflexivity.
Qed.

(** The three cases at the mock subsystems: the two phases gone through, a
    size call refused (ERROR_ACCESS_DENIED), and a discovered size of
    zero. *)
Lemma two_phase_calls_witness :
  (renderEventXML mock_lib mock_backend 1 start
   = (Ok "Svc", after start [EvtRender 1 1 0 0; EvtRender 1 1 4 4])
   ∧ formatMessage mock_lib mock_backend 200 1 start
     = (Ok "up", after start [EvtFormatMessage 200 1 1 0 0; EvtFormatMessage 200 1 1 5 5]))
  ∧ (renderEventXML mock_lib denied_backend 1 start
     = (Err (ErrEvtRenderSize (Errno 5)), after start [EvtRender 1 1 0 0])
     ∧ formatMessage mock_lib denied_backend 200 1 start
       = (Err (ErrEvtFormatMessageSize (Errno 5)), after start [EvtFormatMessage 200 1 1 0 0]))
  ∧ (renderEventXML mock_lib zero_size_backend 1 start
     = (Panic IndexOutOfRange, after start [EvtRender 1 1 0 0])
     ∧ formatMessage mock_lib zero_size_backend 200 1 start
       = (Panic IndexOutOfRange, after start [EvtFormatMessage 200 1 1 0 0])).
Proof.
  destruct (two_phase_calls mock_lib mock_backend 200 1 start) as [(_ & Hr & _) (_ & Hf & _)].
  destruct (two_phase_calls mock_lib denied_backend 200 1 start) as [(Hr' & _) (Hf' & _)].
  destruct (two_phase_calls mock_lib zero_size_backend 200 1 start)
    as [(_ & _ & Hr0) (_ & _ & Hf0)].
  split; [split | split; [split | split]].
  - apply Hr; [right; reflexivity | cbn; lia].
  - apply Hf; [right; reflexivity | cbn; lia].
  - apply Hr'; reflexivity.
  - apply Hf'; reflexivity.
  - apply Hr0; [left; cbn; lia | reflexivity].
  - apply Hf0; [right; reflexivity | reflexivity].
Defined.

(** ** The quoted provider *)

Lemma string_length_app (a b : string) :
  String.length (a +:+ b) = (String.length a + String.length b)%nat.
Proof.
  induction a as [| x a IH]; [reflexivity |].
  rewrite string_app_cons. cbn. by rewrite IH.
Qed.

Lemma contains_quote_app (a b : string) :
  contains_quote (a +:+ b) = contains_quote a || contains_quote b.
Proof.
  induction a as [| x a IH]; [reflexivity |].
  rewrite string_app_cons. cbn [contains_quote]. rewrite IH. apply orb_assoc.
Qed.

(** A text with a double quote in it is split at the first one, whatever
    comes after the text. *)
Lemma until_quote_app (a b : string) :
  contains_quote a = true →
  ∃ value rest, until_quote (a +:+ b) = Some (value, rest +:+ b).
Proof.
  induction a as [| x a IH]; [discriminate |].
  rewrite string_app_cons. cbn [contains_quote until_quote].
  destruct (code x =? 34)%nat; [intros _; by exists EmptyString, a |].
  intros (value & rest & ->)%IH. by exists (String x value), rest.
Qed.

Lemma quote_byte_quote (c : ascii) :
  (code c =? 34)%nat = true → contains_quote (quote_byte c) = true.
Proof. destruct c as [[] [] [] [] [] [] [] []]; first [discriminate | reflexivity]. Qed.

Lemma in_range_no_quote (lo hi : nat) (c : ascii) :
  in_range lo hi c = true → (35 ≤ lo)%nat → (code c =? 34)%nat = false.
Proof.
  unfold in_range. intros [H%Nat.leb_le _]%andb_prop Hlo. apply Nat.eqb_neq. lia.
Qed.

(** The bytes [strconv.Quote] passes over after the first byte of a rune
    are continuation bytes: none is a double quote. *)
Lemma decode_rune_skip (c0 : ascii) (rest : string) (r : Z) (enc : string) :
  decode_rune c0 rest = Some (r, enc) →
  no_quote_prefix (String.length enc - 1) rest = true.
Proof.
  unfold decode_rune.
  destruct (in_range 194 223 c0).
  { destruct rest as [| c1 rest]; [discriminate |].
    destruct (in_range 128 191 c1) eqn:H1; [| discriminate].
    intros [= <- <-]. cbn. rewrite (in_range_no_quote _ _ _ H1) by lia. reflexivity. }
  destruct (in_range 224 239 c0).
  { destruct rest as [| c1 [| c2 rest]]; try discriminate.
    destruct (in_range _ _ c1) eqn:H1; [| discriminate].
    destruct (in_range 128 191 c2) eqn:H2; [| discriminate].
    intros [= <- <-]. cbn.
    rewrite (in_range_no_quote _ _ _ H1) by (destruct (code c0 =? 224)%nat; lia).
    rewrite (in_range_no_quote _ _ _ H2) by lia. reflexivity. }
  destruct (in_range 240 244 c0); [| discriminate].
  destruct rest as [| c1 [| c2 [| c3 rest]]]; try discriminate.
  destruct (in_range _ _ c1) eqn:H1; [| discriminate].
  destruct (in_range 128 191 c2) eqn:H2; [| discriminate].
  destruct (in_range 128 191 c3) eqn:H3; [| discriminate].
  intros [= <- <-]. cbn.
  rewrite (in_range_no_quote _ _ _ H1) by (destruct (code c0 =? 240)%nat; lia).
  rewrite (in_range_no_quote _ _ _ H2), (in_range_no_quote _ _ _ H3) by lia. reflexivity.
Qed.

(** A double quote of the provider is a double quote of its quoted form. *)
Lemma quote_from_contains (lib : golib) (s : string) :
  ∀ skip, no_quote_prefix skip s = true →
          contains_quote s = true → contains_quote (quote_from lib skip s) = true.
Proof.
  induction s as [| c rest IH]; intros skip Hskip Hq; [discriminate |].
  cbn [quote_from]. destruct skip as [| k].
  - cbn [contains_quote] in Hq.
    destruct (is_ascii_byte c) eqn:Hc.
    + rewrite contains_quote_app.
      destruct (code c =? 34)%nat eqn:H34; [by rewrite quote_byte_quote |].
      rewrite (IH 0%nat) by done. apply orb_true_r.
    + assert (Hrest : contains_quote rest = true).
      { destruct (code c =? 34)%nat eqn:H34; [| done].
        apply Nat.eqb_eq in H34. unfold is_ascii_byte in Hc. apply Nat.ltb_ge in Hc. lia. }
      destruct (decode_rune c rest) as [[r enc] |] eqn:Hd.
      * rewrite contains_quote_app, (IH _ (decode_rune_skip _ _ _ _ Hd) Hrest).
        apply orb_true_r.
      * rewrite contains_quote_app, (IH 0%nat) by done. apply orb_true_r.
  - cbn [no_quote_prefix contains_quote] in *.
    apply andb_prop in Hskip as [Hc Hk]. destruct (code c =? 34)%nat; [discriminate |].
    by apply IH.
Qed.

Lemma contains_quote_nonempty (s : string) :
  contains_quote s = true → (s =? "")%string = false.
Proof. destruct s; [discriminate | reflexivity]. Qed.

(** C4, on the code.  For a provider with a double quote in it, the query
    is the fixed text up to [@Name=], the provider as [strconv.Quote]
    writes it, and the rest of the filter.  A string literal of the query
    language has no escapes, so the literal that begins after [@Name=] ends
    at the first double quote of the provider, before the closing quote
    that was written for it: what follows that literal is longer than the
    rest of the filter. *)
Theorem buildQuery_quote_ends_literal (lib : golib) (ms : Z) (provider : string) :
  contains_quote provider = true →
  ∃ value rest,
    buildQuery lib ms provider
    = "*[System[Provider[@Name=" +:+ Quote lib provider +:+ query_tail ms
    ∧ xpath_literal (Quote lib provider +:+ query_tail ms) = Some (value, rest)
    ∧ (String.length (query_tail ms) < String.length rest)%nat.
Proof.
  intros Hq.
  destruct (until_quote_app (quote_body lib provider) (String quote_char (query_tail ms)))
    as (value & rest & Hu).
  { by apply quote_from_contains. }
  exists value, (rest +:+ String quote_char (query_tail ms)).
  split; [| split].
  - unfold buildQuery. by rewrite (contains_quote_nonempty _ Hq).
  - unfold Quote. rewrite string_app_cons. cbn [xpath_literal]. cbn [code quote_char].
    rewrite string_app_assoc. exact Hu.
  - rewrite string_length_app. cbn [String.length]. lia.
Qed.

(** The provider made of [a], a double quote and [b]: it is written as
    [a], a backslash, a double quote and [b] between two double quotes;
    the literal read from the query is [a] and the backslash, and what
    follows it is [b], the closing quote and the rest of the filter. *)
Lemma buildQuery_quote_ends_literal_witness :
  contains_quote (String "a" (String quote_char "b")) = true
  ∧ (∃ value rest,
       buildQuery mock_lib 600000 (String "a" (String quote_char "b"))
       = "*[System[Provider[@Name=" +:+ Quote mock_lib (String "a" (String quote_char "b"))
           +:+ query_tail 600000
       ∧ xpath_literal (Quote mock_lib (String "a" (String quote_char "b"))
                          +:+ query_tail 600000) = Some (value, rest)
       ∧ (String.length (query_tail 600000) < String.length rest)%nat)
  ∧ Quote mock_lib (String "a" (String quote_char "b"))
    = String quote_char
        (String "a" (String backslash_char (String quote_char
           (String "b" (String quote_char EmptyString)))))
  ∧ xpath_literal (Quote mock_lib (String "a" (String quote_char "b"))
                     +:+ query_tail 600000)
    = Some (String "a" (String backslash_char EmptyString),
            String "b" (String quote_char
              "] and TimeCreated[timediff(@SystemTime) <= 600000]]]")).
Proof.
  split; [reflexivity |].
  split; [| split; reflexivity].
  apply (buildQuery_quote_ends_literal mock_lib 600000 (String "a" (String quote_char "b"))).
  reflexivity.
Defined.

(** ** What each function calls *)

Lemma grows_by_refl (C : call → bool) (w : world) : grows_by C w w.
Proof. exists []. by rewrite app_nil_r. Qed.

Lemma grows_by_trans (C : call → bool) (w1 w2 w3 : world) :
  grows_by C w1 w2 → grows_by C w2 w3 → grows_by C w1 w3.
Proof.
  intros (c1 & E1 & F1) (c2 & E2 & F2). exists (c1 ++ c2). split.
  - by rewrite E2, E1, <- app_assoc.
  - by rewrite forallb_app, F1, F2.
Qed.

Lemma grows_by_weaken (C D : call → bool) (w w' : world) :
  (∀ c, C c = true → D c = true) → grows_by C w w' → grows_by D w w'.
Proof.
  intros HCD (calls & E & F). exists calls. split; [done |].
  apply forallb_forall. intros c Hin. apply HCD.
  by apply (proj1 (forallb_forall C calls) F).
Qed.

Lemma quiet_not_next (c : call) : quiet c = true → not_next c = true.
Proof. unfold quiet. by intros [? ?]%andb_prop. Qed.

Lemma quiet_not_open (c : call) : quiet c = true → not_open c = true.
Proof. unfold quiet. by intros [? ?]%andb_prop. Qed.

Lemma grows_by_one (C : call → bool) (w w' : world) (c : call) :
  trace w' = trace w ++ [c] → C c = true → grows_by C w w'.
Proof. intros E HC. exists [c]. split; [done |]. cbn. by rewrite HC. Qed.

Lemma grows_by_same (C : call → bool) (w w' : world) :
  trace w' = trace w → grows_by C w w'.
Proof. intros E. exists []. by rewrite app_nil_r. Qed.

Section Calls.

Variable lib : golib.
Variable be : backend.

Lemma evtCloseHandle_calls (h : Z) (w : world) :
  fst (evtCloseHandle h w) = Ok tt
  ∧ grows_by quiet w (snd (evtCloseHandle h w))
  ∧ handles (snd (evtCloseHandle h w)) = handles w.
Proof.
  unfold evtCloseHandle. destruct (h =? 0); cbn.
  - split; [done |]. split; [apply grows_by_refl | done].
  - split; [done |]. split; [| done]. by eapply grows_by_one.
Qed.

Lemma evtQuery_calls (path query : string) (w : world) :
  grows_by quiet w (snd (evtQuery be path query w))
  ∧ handles (snd (evtQuery be path query w)) = handles w.
Proof.
  unfold evtQuery, procEvtQuery, bind, history, record; cbn.
  destruct (be_EvtQuery be (trace w) path query _) as [r err]; cbn.
  destruct (r =? 0); cbn; (split; [by eapply grows_by_one | done]).
Qed.

Lemma renderEventXML_calls (hEvt : Z) (w : world) :
  grows_by quiet w (snd (renderEventXML lib be hEvt w))
  ∧ handles (snd (renderEventXML lib be hEvt w)) = handles w.
Proof.
  unfold renderEventXML, procEvtRender, bind, history, record; cbn.
  set (d := be_EvtRender be (trace w) hEvt evtRenderEventXML 0).
  set (w1 := {| trace := trace w ++ [EvtRender hEvt evtRenderEventXML 0 0];
                handles := handles w |}).
  assert (H1 : grows_by quiet w w1) by (by eapply grows_by_one).
  destruct (sz_r d =? 0); [destruct (negb _) |]; cbn; try done;
    (destruct (sz_used d) as [| n]; cbn; [done |];
     match goal with |- context [if ?b then fail _ else _] => destruct b end; cbn;
     (split; [| done]);
     (eapply grows_by_trans; [exact H1 |]); by eapply grows_by_one).
Qed.

Lemma formatMessage_calls (meta hEvt : Z) (w : world) :
  grows_by quiet w (snd (formatMessage lib be meta hEvt w))
  ∧ handles (snd (formatMessage lib be meta hEvt w)) = handles w.
Proof.
  unfold formatMessage, procEvtFormatMessage, bind, history, record; cbn.
  set (d := be_EvtFormatMessage be (trace w) meta hEvt evtFormatMessageEvent 0).
  set (w1 := {| trace := trace w ++ [EvtFormatMessage meta hEvt evtFormatMessageEvent 0 0];
                handles := handles w |}).
  assert (H1 : grows_by quiet w w1) by (by eapply grows_by_one).
  destruct (sz_r d =? 0); [destruct (negb _) |]; cbn; try done;
    (destruct (sz_used d) as [| n]; cbn; [done |];
     match goal with |- context [if ?b then fail _ else _] => destruct b end; cbn;
     (split; [| done]);
     (eapply grows_by_trans; [exact H1 |]); by eapply grows_by_one).
Qed.

Lemma close_entries_calls (entries : list (string * Z)) :
  ∀ w, fst (close_entries entries w) = Ok tt
       ∧ grows_by quiet w (snd (close_entries entries w)).
Proof.
  induction entries as [| [k h] rest IH]; intros w; cbn.
  - split; [done | apply grows_by_refl].
  - unfold bind.
    destruct (evtCloseHandle_calls h w) as (Hok & Hg & _).
    destruct (evtCloseHandle h w) as [r w1]; cbn in *. subst r.
    specialize (IH {| trace := trace w1; handles := delete k (handles w1) |}).
    destruct IH as [IHok IHg]. split; [done |].
    eapply grows_by_trans; [exact Hg |].
    destruct IHg as (calls & E & F). by exists calls.
Qed.

Lemma close_calls (w : world) :
  fst (close w) = Ok tt ∧ grows_by quiet w (snd (close w)).
Proof. apply close_entries_calls. Qed.

End Calls.

(** ** The publisher cache *)

Lemma open_calls_app (p : string) (t e : list call) :
  open_calls p (t ++ e) = (open_calls p t + open_calls p e)%nat.
Proof. unfold open_calls. by rewrite List.filter_app, length_app. Qed.

Lemma open_calls_not_open (p : string) (calls : list call) :
  forallb not_open calls = true → open_calls p calls = 0%nat.
Proof.
  unfold open_calls. induction calls as [| c calls IH]; cbn; [done |].
  intros [Hc Hrest]%andb_prop. destruct c; cbn in *; try discriminate; by apply IH.
Qed.

Lemma open_calls_grows (p : string) (w w' : world) :
  grows_by not_open w w' → open_calls p (trace w') = open_calls p (trace w).
Proof.
  intros (calls & E & F). rewrite E, open_calls_app, (open_calls_not_open _ _ F). lia.
Qed.

Lemma open_calls_prefix (p : string) (n : nat) (t : list call) :
  (open_calls p (firstn n t) ≤ open_calls p t)%nat.
Proof.
  rewrite <- (firstn_skipn n t) at 2. rewrite open_calls_app. lia.
Qed.

Lemma cache_sound_once (w : world) : cache_sound w → opened_once w.
Proof. intros H p. apply H. Qed.

Lemma cache_sound_grows (w w' : world) :
  cache_sound w → grows_by not_open w w' → handles w' = handles w → cache_sound w'.
Proof.
  intros H Hg Hh p. rewrite (open_calls_grows p _ _ Hg), Hh. apply H.
Qed.

Lemma opened_once_grows (w w' : world) :
  opened_once w → grows_by not_open w w' → opened_once w'.
Proof. intros H Hg p. rewrite (open_calls_grows p _ _ Hg). apply H. Qed.

Lemma grows_quiet_not_open (w w' : world) : grows_by quiet w w' → grows_by not_open w w'.
Proof. apply grows_by_weaken, quiet_not_open. Qed.

Lemma grows_quiet_not_next (w w' : world) : grows_by quiet w w' → grows_by not_next w w'.
Proof. apply grows_by_weaken, quiet_not_next. Qed.

Section Cache.

Variable lib : golib.
Variable be : backend.

Lemma get_cached (provider : string) (h : Z) (w : world) :
  handles w !! provider = Some h → get be provider w = (Ok h, w).
Proof. intros H. unfold get, bind, cache_lookup. by rewrite H. Qed.

(** A successful [get] of a provider that is not cached made exactly one
    call, the open call that gave the handle, and cached the handle. *)
Lemma get_fresh (provider : string) (h : Z) (w w1 : world) :
  handles w !! provider = None →
  get be provider w = (Ok h, w1) →
  w1 = {| trace := trace w ++ [EvtOpenPublisherMetadata provider h];
          handles := <[provider := h]> (handles w) |}.
Proof.
  intros Hnone. unfold get, bind, cache_lookup. rewrite Hnone.
  unfold from_option, UTF16PtrFromString.
  destruct (has_nul provider); [discriminate |]. cbn.
  unfold procEvtOpenPublisherMetadata, bind, history, record; cbn.
  destruct (be_EvtOpenPublisherMetadata be (trace w) provider) as [r err]; cbn.
  destruct (r =? 0); cbn; [discriminate |].
  unfold cache_store; cbn. intros [= <- <-]. reflexivity.
Qed.

Lemma get_calls (provider : string) (w : world) :
  grows_by not_next w (snd (get be provider w)).
Proof.
  unfold get, bind, cache_lookup.
  destruct (handles w !! provider) as [h |]; cbn; [apply grows_by_refl |].
  unfold from_option, UTF16PtrFromString.
  destruct (has_nul provider); cbn; [apply grows_by_refl |].
  unfold procEvtOpenPublisherMetadata, bind, history, record; cbn.
  destruct (be_EvtOpenPublisherMetadata be (trace w) provider) as [r err]; cbn.
  destruct (r =? 0); cbn; by eapply grows_by_one.
Qed.

Lemma get_sound (provider : string) (w : world) :
  cache_sound w →
  opened_once (snd (get be provider w))
  ∧ (is_ok (fst (get be provider w)) = true → cache_sound (snd (get be provider w))).
Proof.
  intros Hs. unfold get, bind, cache_lookup.
  destruct (handles w !! provider) as [h |] eqn:Hc; cbn.
  { split; [by apply cache_sound_once | done]. }
  unfold from_option, UTF16PtrFromString.
  destruct (has_nul provider); cbn.
  { split; [by apply cache_sound_once | done]. }
  unfold procEvtOpenPublisherMetadata, bind, history, record; cbn.
  destruct (be_EvtOpenPublisherMetadata be (trace w) provider) as [r err]; cbn.
  assert (Hcount : ∀ p, open_calls p (trace w ++ [EvtOpenPublisherMetadata provider r])
                        = (open_calls p (trace w) + (if decide (provider = p) then 1 else 0))%nat).
  { intros p. rewrite open_calls_app. f_equal. unfold open_calls; cbn.
    unfold bool_decide. destruct (decide_rel eq provider p); destruct (decide (provider = p));
      done. }
  assert (Honce : ∀ p, (open_calls p (trace w ++ [EvtOpenPublisherMetadata provider r]) ≤ 1)%nat).
  { intros p. rewrite Hcount. destruct (Hs p) as [Hle Hz].
    destruct (decide (provider = p)) as [<- | Hne]; [| lia].
    rewrite (Hz Hc). lia. }
  destruct (r =? 0); cbn.
  - split; [exact Honce | done].
  - split; [exact Honce |]. intros _ p. cbn [trace handles]. split; [apply Honce |].
    rewrite Hcount. destruct (decide (provider = p)) as [<- | Hne].
    + by rewrite lookup_insert_eq.
    + rewrite lookup_insert_ne by done. intros Hp. destruct (Hs p) as [_ Hz].
      rewrite (Hz Hp). lia.
Qed.

End Cache.

(** ** One event, one batch *)

Section Batch.

Variable lib : golib.
Variable be : backend.

Lemma parseEvent_calls (hEvt : Z) (w : world) :
  grows_by not_next w (snd (parseEvent lib be hEvt w)).
Proof.
  unfold parseEvent, bind.
  destruct (renderEventXML_calls lib be hEvt w) as [Hg%grows_quiet_not_next _].
  destruct (renderEventXML lib be hEvt w) as [[xmlText | e | p] w1]; cbn in *; try done.
  unfold from_option.
  destruct (xml_Unmarshal lib xmlText) as [parsed |]; cbn; [| done].
  destruct (time_Parse lib _) as [timestamp |]; cbn; [| done].
  pose proof (get_calls be (System_Provider_Name parsed) w1) as Hg1.
  destruct (get be _ w1) as [[meta | e | p] w2]; cbn in *;
    try (by eapply grows_by_trans).
  destruct (formatMessage_calls lib be meta hEvt w2) as [Hg2%grows_quiet_not_next _].
  destruct (formatMessage lib be meta hEvt w2) as [[msg | e | p] w3]; cbn in *;
    (eapply grows_by_trans; [exact Hg |]); by eapply grows_by_trans.
Qed.

Lemma parseEvent_sound (hEvt : Z) (w : world) :
  cache_sound w →
  opened_once (snd (parseEvent lib be hEvt w))
  ∧ (is_ok (fst (parseEvent lib be hEvt w)) = true
     → cache_sound (snd (parseEvent lib be hEvt w))).
Proof.
  intros Hs. unfold parseEvent, bind.
  destruct (renderEventXML_calls lib be hEvt w) as [Hg%grows_quiet_not_open Hh].
  pose proof (cache_sound_grows _ _ Hs Hg Hh) as Hs1.
  destruct (renderEventXML lib be hEvt w) as [[xmlText | e | p] w1]; cbn in *;
    try (split; [by apply cache_sound_once | done]).
  unfold from_option.
  destruct (xml_Unmarshal lib xmlText) as [parsed |]; cbn;
    [| split; [by apply cache_sound_once | done]].
  destruct (time_Parse lib _) as [timestamp |]; cbn;
    [| split; [by apply cache_sound_once | done]].
  destruct (get_sound be (System_Provider_Name parsed) w1 Hs1) as [Ho Hc].
  destruct (get be _ w1) as [[meta | e | p] w2]; cbn in *; try (split; done).
  specialize (Hc eq_refl).
  destruct (formatMessage_calls lib be meta hEvt w2) as [Hg2%grows_quiet_not_open Hh2].
  pose proof (cache_sound_grows _ _ Hc Hg2 Hh2) as Hs3.
  destruct (formatMessage lib be meta hEvt w2) as [[msg | e | p] w3]; cbn in *;
    (split; [by apply cache_sound_once | done]).
Qed.

Variable maxEvents : Z.

Lemma renderBatch_calls (batch : list Z) :
  ∀ results w, grows_by not_next w (snd (renderBatch lib be maxEvents batch results w)).
Proof.
  induction batch as [| hEvt rest IH]; intros results w; cbn.
  - apply grows_by_refl.
  - unfold bind, attempt.
    pose proof (parseEvent_calls hEvt w) as Hg.
    destruct (parseEvent lib be hEvt w) as [[rec | e | p] w1]; cbn in *; try done.
    + destruct (evtCloseHandle_calls hEvt w1) as (Hok & Hg1%grows_quiet_not_next & _).
      destruct (evtCloseHandle hEvt w1) as [r w2]; cbn in *; subst r.
      destruct (_ >=? maxEvents); cbn.
      * by eapply grows_by_trans.
      * eapply grows_by_trans; [exact Hg |]. eapply grows_by_trans; [exact Hg1 |]. apply IH.
    + destruct (evtCloseHandle_calls hEvt w1) as (Hok & Hg1%grows_quiet_not_next & _).
      destruct (evtCloseHandle hEvt w1) as [r w2]; cbn in *; subst r.
      by eapply grows_by_trans.
Qed.

Lemma renderBatch_sound (batch : list Z) :
  ∀ results w,
    cache_sound w →
    opened_once (snd (renderBatch lib be maxEvents batch results w))
    ∧ (is_ok (fst (renderBatch lib be maxEvents batch results w)) = true
       → cache_sound (snd (renderBatch lib be maxEvents batch results w))).
Proof.
  induction batch as [| hEvt rest IH]; intros results w Hs; cbn.
  - split; [by apply cache_sound_once | done].
  - unfold bind, attempt.
    destruct (parseEvent_sound hEvt w Hs) as [Ho Hc].
    destruct (parseEvent lib be hEvt w) as [[rec | e | p] w1]; cbn in *; try (split; done).
    + specialize (Hc eq_refl).
      destruct (evtCloseHandle_calls hEvt w1) as (Hok & Hg1%grows_quiet_not_open & Hh1).
      pose proof (cache_sound_grows _ _ Hc Hg1 Hh1) as Hs2.
      destruct (evtCloseHandle hEvt w1) as [r w2]; cbn in *; subst r.
      destruct (_ >=? maxEvents); cbn.
      * split; [by apply cache_sound_once | done].
      * by apply IH.
    + destruct (evtCloseHandle_calls hEvt w1) as (Hok & Hg1%grows_quiet_not_open & Hh1).
      pose proof (opened_once_grows _ _ Ho Hg1) as Ho2.
      destruct (evtCloseHandle hEvt w1) as [r w2]; cbn in *; subst r.
      split; done.
Qed.

End Batch.

(** ** The batching loop *)




Lemma evtNextBatch_calls (resp : next_resp) (hQuery : Z) (w : world) :
  snd (evtNextBatch resp hQuery evtNextBatchSize w)
  = after w [EvtNext hQuery evtNextBatchSize 2000 resp]
  ∧ (nx_r resp = 0 →
     fst (evtNextBatch resp hQuery evtNextBatchSize w)
     = Err (if is_errno (nx_err resp) ERROR_NO_MORE_ITEMS then ErrNoMoreItems
            else ErrEvtNext (nx_err resp)))
  ∧ (nx_r resp ≠ 0 → ∀ e, fst (evtNextBatch resp hQuery evtNextBatchSize w) ≠ Err e).
Proof.
  unfold evtNextBatch, procEvtNext, bind, record; cbn.
  destruct (Z.eqb_spec (nx_r resp) 0) as [Hz | Hnz].
  - destruct (is_errno _ _); cbn; (split; [done |]); split; done.
  - destruct (_ <=? _)%nat; cbn; (split; [done |]); split; done.
Qed.

Section Loop_properties.

Variable lib : golib.
Variable be : backend.
Variable hQuery : Z.
Variable maxEvents : Z.




Lemma fetchStep_sound (resp : next_resp) (results : list eventRecord)
    (again : list eventRecord → M (list eventRecord)) (w : world) :
  (∀ results' w', loop_sound (again results') w') →
  loop_sound (fetchStep lib be hQuery maxEvents resp results again) w.
Proof.
  intros Hagain Hs. unfold fetchStep, bind, attempt.
  destruct (evtNextBatch_calls resp hQuery w) as (Hw & _ & _).
  assert (Hs1 : cache_sound (after w [EvtNext hQuery evtNextBatchSize 2000 resp])).
  { apply (cache_sound_grows w); [done | by eapply grows_by_one | done]. }
  destruct (evtNextBatch resp hQuery evtNextBatchSize w) as [r w1]; cbn in *; subst w1.
  destruct r as [batch | e | p]; cbn.
  - destruct (renderBatch_sound lib be maxEvents batch results _ Hs1) as [Ho Hc].
    destruct (renderBatch lib be maxEvents batch results _) as [[recs | e | p] w2];
      cbn in *; try (split; done).
    apply Hagain. by apply Hc.
  - destruct e; cbn; (split; [by apply cache_sound_once | done]).
  - split; [by apply cache_sound_once | done].
Qed.

Lemma fetchLoop_sound (script : list next_resp) :
  ∀ results w, loop_sound (fetchLoop lib be hQuery maxEvents script results) w.
Proof.
  induction script as [| resp rest IH]; intros results w; rewrite fetchLoop_unfold;
    destruct (Z.of_nat (length results) <? maxEvents).
  - apply fetchStep_sound. intros results' w' Hs. cbn.
    split; [by apply cache_sound_once | done].
  - intros Hs. cbn. split; [by apply cache_sound_once | done].
  - apply fetchStep_sound. exact IH.
  - intros Hs. cbn. split; [by apply cache_sound_once | done].
Qed.

End Loop_properties.

(** ** A whole run *)

Section Run.

Variable lib : golib.
Variable be : backend.

(** The run after [evtQuery] gave [hQuery]: the loop over a fresh cache,
    then the deferred calls. *)
Lemma fetchEvents_unfold (script : list next_resp) (logName provider : string)
    (minutes maxEvents : Z) (w : world) :
  fetchEvents lib be script logName provider minutes maxEvents w
  = let maxEvents := if maxEvents <=? 0 then defaultMaxEvents else maxEvents in
    let minutes := if minutes <=? 0 then defaultLookbackMinutes else minutes in
    match UTF16PtrFromString (buildQuery lib (int_mul (int_mul minutes 60) 1000) provider)
    with
    | None => (Err ErrQueryUTF16, w)
    | Some queryPtr =>
        match UTF16PtrFromString logName with
        | None => (Err ErrPathUTF16, w)
        | Some pathPtr =>
            match evtQuery be pathPtr queryPtr w with
            | (Ok hQuery, w1) =>
                if maxEvents <=? max_slice_cap lib then
                  let '(r, w2) := fetchLoop lib be hQuery maxEvents script []
                                    {| trace := trace w1; handles := ∅ |} in
                  (r, snd (evtCloseHandle hQuery (snd (close w2))))
                else
                  (Panic MakesliceCapOutOfRange,
                   snd (evtCloseHandle hQuery {| trace := trace w1; handles := ∅ |}))
            | (Err e, w1) => (Err e, w1)
            | (Panic p, w1) => (Panic p, w1)
            end
        end
    end.
Proof.
  unfold fetchEvents, bind, from_option, defer, cache_new, make_results, ret, fail, throw.
  destruct (UTF16PtrFromString (buildQuery _ _ provider)); cbn; [| done].
  destruct (UTF16PtrFromString logName); cbn; [| done].
  destruct (evtQuery be _ _ w) as [[hQuery | e | p] w1]; cbn; try done.
  destruct (_ <=? max_slice_cap lib); cbn; [| done].
  by destruct (fetchLoop lib be hQuery _ script [] _).
Qed.


Lemma fetchEvents_opened_once (script : list next_resp) (logName provider : string)
    (minutes maxEvents : Z) (w : world) :
  (∀ p, open_calls p (trace w) = 0%nat) →
  opened_once (snd (fetchEvents lib be script logName provider minutes maxEvents w)).
Proof.
  intros Hzero.
  assert (Hw : opened_once w) by (intros p; rewrite Hzero; lia).
  rewrite fetchEvents_unfold. cbv zeta.
  destruct (UTF16PtrFromString (buildQuery _ _ provider)) as [queryPtr |]; cbn [fst snd];
    [| done].
  destruct (UTF16PtrFromString logName) as [pathPtr |]; cbn [fst snd]; [| done].
  destruct (evtQuery_calls be pathPtr queryPtr w) as [Hg%grows_quiet_not_open _].
  destruct (evtQuery be pathPtr queryPtr w) as [[hQuery | e | p] w1]; cbn [fst snd] in *;
    try (by eapply opened_once_grows).
  assert (Hs : cache_sound {| trace := trace w1; handles := ∅ |}).
  { intros p. cbn [trace handles]. rewrite (open_calls_grows p _ _ Hg), Hzero.
    split; [lia | done]. }
  destruct (_ <=? max_slice_cap lib); cbn [fst snd].
  2: { destruct (evtCloseHandle_calls hQuery {| trace := trace w1; handles := ∅ |})
         as (_ & Hg3%grows_quiet_not_open & _).
       eapply opened_once_grows; [| exact Hg3]. by apply cache_sound_once. }
  destruct (fetchLoop_sound lib be hQuery
              (if maxEvents <=? 0 then defaultMaxEvents else maxEvents) script []
              _ Hs) as [Ho _].
  destruct (fetchLoop lib be hQuery _ script [] _) as [r w2]; cbn [fst snd] in *.
  destruct (close_calls w2) as [_ Hg2%grows_quiet_not_open].
  destruct (evtCloseHandle_calls hQuery (snd (close w2)))
    as (_ & Hg3%grows_quiet_not_open & _).
  eapply opened_once_grows; [| exact Hg3]. by eapply opened_once_grows.
Qed.

End Run.



Lemma get_twice (be : backend) (provider : string) (h : Z) (w w1 : world) :
  get be provider w = (Ok h, w1) → get be provider w1 = (Ok h, w1).
Proof.
  intros Hget. destruct (handles w !! provider) as [h0 |] eqn:Hc.
  - rewrite (get_cached be _ _ _ Hc) in Hget. injection Hget as <- <-.
    by apply get_cached.
  - rewrite (get_fresh be _ _ _ _ Hc Hget). apply get_cached. cbn.
    apply lookup_insert_eq.
Qed.

(** C7. Asking the cache twice for a provider it does not hold yet makes
    exactly one metadata-open call, and both requests return the handle that
    call gave; a second request never changes the state.  Over a whole run
    of [fetchEvents], at every point of its trace, no provider has been
    opened more than once: there is never more than one metadata handle per
    provider name. *)
Theorem publisherCache_opens_once (lib : golib) (be : backend)
    (provider : string) (h : Z) (w w1 : world)
    (script : list next_resp) (logName filter : string) (minutes maxEvents : Z)
    (p : string) (n : nat) :
  (handles w !! provider = None →
   get be provider w = (Ok h, w1) →
   (h1 <- get be provider ;; h2 <- get be provider ;; ret (h1, h2)) w = (Ok (h, h), w1)
   ∧ trace w1 = trace w ++ [EvtOpenPublisherMetadata provider h])
  ∧ (get be provider w = (Ok h, w1) → get be provider w1 = (Ok h, w1))
  ∧ (open_calls p
       (firstn n (trace (snd (fetchEvents lib be script logName filter minutes maxEvents
                                start))))
     ≤ 1)%nat.
Proof.
  split; [| split].
  - intros Hc Hget. split.
    + unfold bind. rewrite Hget, (get_twice be _ _ _ _ Hget). reflexivity.
    + by rewrite (get_fresh be _ _ _ _ Hc Hget).
  - apply get_twice.
  - etransitivity; [apply open_calls_prefix |].
    by apply fetchEvents_opened_once.
Qed.

Lemma publisherCache_opens_once_witness :
  (handles start !! "Svc" = None
   ∧ get mock_backend "Svc" start
     = (Ok 200, {| trace := [EvtOpenPublisherMetadata "Svc" 200];
                   handles := {["Svc" := 200]} |}))
  ∧ ((h1 <- get mock_backend "Svc" ;; h2 <- get mock_backend "Svc" ;; ret (h1, h2)) start
     = (Ok (200, 200), {| trace := [EvtOpenPublisherMetadata "Svc" 200];
                          handles := {["Svc" := 200]} |}))
  ∧ (open_calls "Svc"
       (firstn 7 (trace (snd (fetchEvents mock_lib mock_backend mock_script
                                "Application" "" 10 4 start))))
     ≤ 1)%nat.
Proof.
  assert (Hget : get mock_backend "Svc" start
                 = (Ok 200, {| trace := [EvtOpenPublisherMetadata "Svc" 200];
                               handles := {["Svc" := 200]} |}))
    by reflexivity.
  split; [split; [reflexivity | exact Hget] |].
  split.
  - exact (proj1 (proj1 (publisherCache_opens_once mock_lib mock_backend "Svc" 200 start _
                           mock_script "Application" "" 10 4 "Svc" 7)
                    eq_refl Hget)).
  - exact (proj2 (proj2 (publisherCache_opens_once mock_lib mock_backend "Svc" 200 start
                           start mock_script "Application" "" 10 4 "Svc" 7))).
Defined.

(** * Further properties *)

(** ** Text handed to the subsystem *)

Lemma has_nul_app (a b : string) : has_nul (a +:+ b) = has_nul a || has_nul b.
Proof.
  induction a as [| c a IH]; [reflexivity |].
  rewrite string_app_cons. cbn [has_nul]. rewrite IH. apply orb_assoc.
Qed.

Lemma has_nul_quote_byte (c : ascii) : has_nul (quote_byte c) = false.
Proof. destruct c as [[] [] [] [] [] [] [] []]; reflexivity. Qed.

Lemma has_nul_hex_escape (c : ascii) :
  has_nul (String backslash_char
             (String "x" (String (hex_digit (code c / 16))
                            (String (hex_digit (code c mod 16)) EmptyString)))) = false.
Proof. destruct c as [[] [] [] [] [] [] [] []]; reflexivity. Qed.

Lemma hex_digit_not_nul (n : nat) : (n < 16)%nat → (code (hex_digit n) =? 0)%nat = false.
Proof.
  intros Hn. unfold hex_digit. apply Nat.eqb_neq.
  destruct (n <? 10)%nat; rewrite code_byte_of; lia.
Qed.

Lemma has_nul_hex (n : nat) (z : Z) : has_nul (hex n z) = false.
Proof.
  induction n as [| n IH]; [reflexivity |].
  cbn [hex has_nul]. rewrite IH, hex_digit_not_nul; [done |].
  pose proof (Z.mod_pos_bound (z / 16 ^ Z.of_nat n) 16). lia.
Qed.

Lemma in_range_not_nul (lo hi : nat) (c : ascii) :
  in_range lo hi c = true → (1 ≤ lo)%nat → (code c =? 0)%nat = false.
Proof.
  unfold in_range. intros [H%Nat.leb_le _]%andb_prop Hlo. apply Nat.eqb_neq. lia.
Qed.

(** The encoding of a rune from 0x80 up has no NUL byte. *)
Lemma decode_rune_no_nul (c0 : ascii) (rest : string) (r : Z) (enc : string) :
  decode_rune c0 rest = Some (r, enc) → has_nul enc = false.
Proof.
  unfold decode_rune.
  destruct (in_range 194 223 c0) eqn:H0.
  { destruct rest as [| c1 rest]; [discriminate |].
    destruct (in_range 128 191 c1) eqn:H1; [| discriminate].
    intros [= <- <-]. cbn [has_nul].
    rewrite (in_range_not_nul _ _ _ H0), (in_range_not_nul _ _ _ H1) by lia. reflexivity. }
  clear H0. destruct (in_range 224 239 c0) eqn:H0.
  { destruct rest as [| c1 [| c2 rest]]; try discriminate.
    destruct (in_range _ _ c1) eqn:H1; [| discriminate].
    destruct (in_range 128 191 c2) eqn:H2; [| discriminate].
    intros [= <- <-]. cbn [has_nul].
    rewrite (in_range_not_nul _ _ _ H0) by lia.
    rewrite (in_range_not_nul _ _ _ H1) by (destruct (code c0 =? 224)%nat; lia).
    rewrite (in_range_not_nul _ _ _ H2) by lia. reflexivity. }
  clear H0. destruct (in_range 240 244 c0) eqn:H0; [| discriminate].
  destruct rest as [| c1 [| c2 [| c3 rest]]]; try discriminate.
  destruct (in_range _ _ c1) eqn:H1; [| discriminate].
  destruct (in_range 128 191 c2) eqn:H2; [| discriminate].
  destruct (in_range 128 191 c3) eqn:H3; [| discriminate].
  intros [= <- <-]. cbn [has_nul].
  rewrite (in_range_not_nul _ _ _ H0) by lia.
  rewrite (in_range_not_nul _ _ _ H1) by (destruct (code c0 =? 240)%nat; lia).
  rewrite (in_range_not_nul _ _ _ H2), (in_range_not_nul _ _ _ H3) by lia. reflexivity.
Qed.

Lemma has_nul_quote_rune (lib : golib) (r : Z) (enc : string) :
  has_nul enc = false → has_nul (quote_rune lib r enc) = false.
Proof.
  intros Henc. unfold quote_rune.
  destruct (is_print lib r); [done |].
  destruct (r <? 65536); cbn [has_nul]; by rewrite has_nul_hex.
Qed.

Lemma has_nul_quote_from (lib : golib) (s : string) :
  ∀ skip, has_nul (quote_from lib skip s) = false.
Proof.
  induction s as [| c rest IH]; intros skip; [reflexivity |].
  cbn [quote_from]. destruct skip as [| k]; [| apply IH].
  destruct (is_ascii_byte c).
  - by rewrite has_nul_app, has_nul_quote_byte, IH.
  - destruct (decode_rune c rest) as [[r enc] |] eqn:Hd.
    + by rewrite has_nul_app, (has_nul_quote_rune _ _ _ (decode_rune_no_nul _ _ _ _ Hd)), IH.
    + by rewrite has_nul_app, has_nul_hex_escape, IH.
Qed.

(** Some quoted texts: a NUL and a line feed, the invalid byte 0xFF, the
    letter U+00E9 (printable), the control U+0085 and the no-break space
    U+00A0 (not printable). *)
Lemma Quote_samples (lib : golib) :
  Quote lib (String.string_of_list_ascii (bytes [0; 10]%nat))
  = String quote_char ("\x00\n" +:+ String quote_char EmptyString)
  ∧ Quote lib (String.string_of_list_ascii (bytes [255]%nat))
    = String quote_char ("\xff" +:+ String quote_char EmptyString)
  ∧ Quote lib (String.string_of_list_ascii (bytes [195; 169]%nat))
    = String quote_char
        (String.string_of_list_ascii (bytes [195; 169]%nat) +:+ String quote_char EmptyString)
  ∧ Quote lib (String.string_of_list_ascii (bytes [194; 133; 194; 160]%nat))
    = String quote_char ("\u0085\u00a0" +:+ String quote_char EmptyString).
Proof. repeat split; reflexivity. Qed.

Lemma has_nul_Quote (lib : golib) (s : string) : has_nul (Quote lib s) = false.
Proof.
  unfold Quote, quote_body. cbn [has_nul]. rewrite has_nul_app, has_nul_quote_from.
  reflexivity.
Qed.

Lemma has_nul_digits (u : Decimal.uint) : has_nul (NilEmpty.string_of_uint u) = false.
Proof. induction u; cbn; done. Qed.

Lemma has_nul_sprint_d (z : Z) : has_nul (sprint_d z) = false.
Proof.
  unfold sprint_d, NilZero.string_of_int, NilZero.string_of_uint.
  destruct (Z.to_int z) as [u | u]; destruct u; cbn [has_nul];
    try reflexivity; apply (has_nul_digits (_ _)).
Qed.

Lemma buildQuery_text (lib : golib) (ms : Z) (provider : string) :
  has_nul (buildQuery lib ms provider) = false
  ∧ UTF16PtrFromString (buildQuery lib ms provider) = Some (buildQuery lib ms provider).
Proof.
  assert (H : has_nul (buildQuery lib ms provider) = false).
  { unfold buildQuery. destruct (provider =? "")%string.
    - rewrite !has_nul_app, has_nul_sprint_d. reflexivity.
    - rewrite !has_nul_app, has_nul_sprint_d, has_nul_Quote. reflexivity. }
  split; [exact H |]. unfold UTF16PtrFromString. by rewrite H.
Qed.

(** X1. The query text never holds a NUL byte, whatever the provider filter
    (its NUL bytes are written as escapes): the conversion to UTF-16 of the
    query cannot fail. *)
Theorem buildQuery_no_nul (lib : golib) (ms : Z) (provider : string) :
  has_nul (buildQuery lib ms provider) = false
  ∧ UTF16PtrFromString (buildQuery lib ms provider) = Some (buildQuery lib ms provider).
Proof. apply buildQuery_text. Qed.

(** ** Channels *)

Lemma normalizeLogName_cases (lib : golib) (name : string) :
  (normalizeLogName lib "Application" = Ok "Application"
   ∧ normalizeLogName lib "System" = Ok "System"
   ∧ normalizeLogName lib "Setup" = Ok "Setup")
  ∧ match normalizeLogName lib name with
    | Ok channel =>
        In channel canonical_channels
        ∧ normalizeLogName lib channel = Ok channel
        ∧ has_nul channel = false
        ∧ ((channel = "Application"
            ∧ (ToLower lib (TrimSpace name) = "application"
               ∨ ToLower lib (TrimSpace name) = ""))
           ∨ (channel = "System" ∧ ToLower lib (TrimSpace name) = "system")
           ∨ (channel = "Setup" ∧ ToLower lib (TrimSpace name) = "setup"))
    | Err e => e = ErrUnsupportedLog name
    | Panic _ => False
    end.
Proof.
  split; [repeat split; reflexivity |].
  unfold normalizeLogName at 1.
  destruct (String.eqb_spec (ToLower lib (TrimSpace name)) "application") as [Ha | _].
  { cbn. repeat split; auto. }
  destruct (String.eqb_spec (ToLower lib (TrimSpace name)) "") as [He | _].
  { cbn. repeat split; auto. }
  destruct (String.eqb_spec (ToLower lib (TrimSpace name)) "system") as [Hs | _].
  { cbn. repeat split; auto. }
  destruct (String.eqb_spec (ToLower lib (TrimSpace name)) "setup") as [Hs | _].
  { cbn. repeat split; auto. }
  reflexivity.
Qed.

(** X2. [normalizeLogName] never panics.  Each of the three canonical
    channel names Application, System and Setup is accepted and mapped to
    itself.  What is accepted is mapped to the canonical name of its key
    (the name after [strings.TrimSpace] and [strings.ToLower]):
    Application for application and for the empty key, System for system,
    Setup for setup; no canonical name holds a NUL byte.  What is refused
    is reported with the name as it was given. *)
Theorem normalizeLogName_canonical (lib : golib) (name : string) :
  (normalizeLogName lib "Application" = Ok "Application"
   ∧ normalizeLogName lib "System" = Ok "System"
   ∧ normalizeLogName lib "Setup" = Ok "Setup")
  ∧ match normalizeLogName lib name with
    | Ok channel =>
        In channel canonical_channels
        ∧ normalizeLogName lib channel = Ok channel
        ∧ has_nul channel = false
        ∧ ((channel = "Application"
            ∧ (ToLower lib (TrimSpace name) = "application"
               ∨ ToLower lib (TrimSpace name) = ""))
           ∨ (channel = "System" ∧ ToLower lib (TrimSpace name) = "system")
           ∨ (channel = "Setup" ∧ ToLower lib (TrimSpace name) = "setup"))
    | Err e => e = ErrUnsupportedLog name
    | Panic _ => False
    end.
Proof. apply normalizeLogName_cases. Qed.

(** ** Which errors a run can end with *)

Section Errors.

Variable lib : golib.
Variable be : backend.

Lemma renderEventXML_errors (hEvt : Z) (w : world) :
  errors_in loop_error (fst (renderEventXML lib be hEvt w)) = true.
Proof.
  unfold renderEventXML, procEvtRender, bind, history, record; cbn.
  destruct (sz_r _ =? 0); [destruct (negb _) |]; cbn; try done;
    (destruct (sz_used _) as [| n]; cbn; [done |];
     match goal with |- context [if ?b then fail _ else _] => destruct b end; done).
Qed.

Lemma formatMessage_errors (meta hEvt : Z) (w : world) :
  errors_in loop_error (fst (formatMessage lib be meta hEvt w)) = true.
Proof.
  unfold formatMessage, procEvtFormatMessage, bind, history, record; cbn.
  destruct (sz_r _ =? 0); [destruct (negb _) |]; cbn; try done;
    (destruct (sz_used _) as [| n]; cbn; [done |];
     match goal with |- context [if ?b then fail _ else _] => destruct b end; done).
Qed.

Lemma get_errors (provider : string) (w : world) :
  errors_in loop_error (fst (get be provider w)) = true.
Proof.
  unfold get, bind, cache_lookup.
  destruct (handles w !! provider) as [h |]; cbn; [done |].
  unfold from_option, UTF16PtrFromString.
  destruct (has_nul provider); cbn; [done |].
  unfold procEvtOpenPublisherMetadata, bind, history, record; cbn.
  destruct (be_EvtOpenPublisherMetadata be (trace w) provider) as [r err]; cbn.
  by destruct (r =? 0).
Qed.

Lemma parseEvent_errors (hEvt : Z) (w : world) :
  errors_in loop_error (fst (parseEvent lib be hEvt w)) = true.
Proof.
  unfold parseEvent, bind.
  pose proof (renderEventXML_errors hEvt w) as H1.
  destruct (renderEventXML lib be hEvt w) as [[xmlText | e | p] w1]; cbn in *; try done.
  unfold from_option.
  destruct (xml_Unmarshal lib xmlText) as [parsed |]; cbn; [| done].
  destruct (time_Parse lib _) as [timestamp |]; cbn; [| done].
  pose proof (get_errors (System_Provider_Name parsed) w1) as H2.
  destruct (get be _ w1) as [[meta | e | p] w2]; cbn in *; try done.
  pose proof (formatMessage_errors meta hEvt w2) as H3.
  by destruct (formatMessage lib be meta hEvt w2) as [[msg | e | p] w3].
Qed.

Lemma renderBatch_errors (maxEvents : Z) (batch : list Z) :
  ∀ results w,
    errors_in loop_error (fst (renderBatch lib be maxEvents batch results w)) = true.
Proof.
  induction batch as [| hEvt rest IH]; intros results w; cbn; [done |].
  unfold bind, attempt.
  pose proof (parseEvent_errors hEvt w) as H1.
  destruct (parseEvent lib be hEvt w) as [[rec | e | p] w1]; cbn in *; try done;
    destruct (evtCloseHandle_calls hEvt w1) as (Hok & _);
    destruct (evtCloseHandle hEvt w1) as [r w2]; cbn in *; subst r; [| done].
  destruct (_ >=? maxEvents); cbn; [done | apply IH].
Qed.

Lemma fetchStep_errors (hQuery maxEvents : Z) (resp : next_resp)
    (results : list eventRecord) (again : list eventRecord → M (list eventRecord))
    (w : world) :
  (∀ results' w', errors_in loop_error (fst (again results' w')) = true) →
  errors_in loop_error (fst (fetchStep lib be hQuery maxEvents resp results again w)) = true.
Proof.
  intros Hagain. unfold fetchStep, bind, attempt.
  destruct (evtNextBatch_calls resp hQuery w) as (_ & Hfail & Hgood).
  destruct (evtNextBatch resp hQuery evtNextBatchSize w) as [[batch | e | p] w1];
    cbn in *; try done.
  - pose proof (renderBatch_errors maxEvents batch results w1) as Hb.
    destruct (renderBatch lib be maxEvents batch results w1) as [[recs | e | p] w2];
      cbn in *; first [done | apply Hagain].
  - destruct (Z.eq_dec (nx_r resp) 0) as [Hz | Hnz].
    + specialize (Hfail Hz). injection Hfail as ->. by destruct (is_errno _ _).
    + by destruct (Hgood Hnz e).
Qed.

Lemma fetchLoop_errors (hQuery maxEvents : Z) (script : list next_resp) :
  ∀ results w,
    errors_in loop_error (fst (fetchLoop lib be hQuery maxEvents script results w)) = true.
Proof.
  induction script as [| resp rest IH]; intros results w; rewrite fetchLoop_unfold;
    destruct (Z.of_nat (length results) <? maxEvents); try done;
    by apply fetchStep_errors.
Qed.

Lemma evtQuery_errors (path query : string) (w : world) :
  errors_in fetch_error (fst (evtQuery be path query w)) = true.
Proof.
  unfold evtQuery, procEvtQuery, bind, history, record; cbn.
  destruct (be_EvtQuery be (trace w) path query _) as [r err]; cbn.
  by destruct (r =? 0).
Qed.

Lemma loop_error_fetch_error {A} (o : outcome A) :
  errors_in loop_error o = true → errors_in fetch_error o = true.
Proof. destruct o as [a | e | p]; cbn; [done | | done]. by destruct e. Qed.

End Errors.

(** X3. [fetchEvents] never hands "no more items" (nor the unsupported-log
    error) to its caller: an error it returns is one of the two UTF-16
    conversions, the failed query, or an error of the loop (batch fetch,
    render, XML or time parsing, publisher metadata, message format). *)
Theorem fetchEvents_error_taxonomy (lib : golib) (be : backend) (script : list next_resp)
    (logName provider : string) (minutes maxEvents : Z) (w : world) :
  errors_in fetch_error
    (fst (fetchEvents lib be script logName provider minutes maxEvents w)) = true.
Proof.
  rewrite fetchEvents_unfold. cbv zeta.
  destruct (UTF16PtrFromString (buildQuery _ _ provider)) as [queryPtr |]; [| done].
  destruct (UTF16PtrFromString logName) as [pathPtr |]; [| done].
  pose proof (evtQuery_errors be pathPtr queryPtr w) as Hq.
  destruct (evtQuery be pathPtr queryPtr w) as [[hQuery | e | p] w1]; cbn [fst] in *;
    try done.
  destruct (_ <=? max_slice_cap lib); [| done].
  pose proof (fetchLoop_errors lib be hQuery
                (if maxEvents <=? 0 then defaultMaxEvents else maxEvents) script []
                {| trace := trace w1; handles := ∅ |}) as Hloop.
  destruct (fetchLoop lib be hQuery _ script [] _) as [r w2]; cbn [fst] in *.
  by apply loop_error_fetch_error.
Qed.

Lemma evtQuery_error_is_query (be : backend) (path query : string) (w : world) :
  match fst (evtQuery be path query w) with
  | Err e => ∃ err, e = ErrEvtQuery err
  | _ => True
  end.
Proof.
  unfold evtQuery, procEvtQuery, bind, history, record; cbn.
  destruct (be_EvtQuery be (trace w) path query _) as [r err]; cbn.
  destruct (r =? 0); cbn; [by exists err | done].
Qed.

(** X4. [main] never ends on a UTF-16 conversion error of the query or of
    the channel path, nor on "no more items": the channel it passes on is a
    canonical name and the query text has no NUL byte.  It ends with
    success, a crash, the JSON failure, the unsupported-log error, the
    failed query, or an error of the loop. *)
Theorem main_exits (lib : golib) (be : backend) (logName provider : string)
    (minutes maxEvents : Z) (script : list next_resp) (w : world) :
  main_exit_ok (fst (main lib be logName provider minutes maxEvents script w)) = true.
Proof.
  unfold main.
  pose proof (proj2 (normalizeLogName_cases lib logName)) as Hn.
  destruct (normalizeLogName lib logName) as [channel | e | p]; [| by subst e | done].
  destruct Hn as (_ & _ & Hnul & _).
  rewrite fetchEvents_unfold. cbv zeta.
  rewrite (proj2 (buildQuery_text _ _ _)).
  unfold UTF16PtrFromString at 1. rewrite Hnul.
  pose proof (evtQuery_error_is_query be channel
                (buildQuery lib
                   (int_mul (int_mul (if minutes <=? 0 then defaultLookbackMinutes
                                      else minutes) 60) 1000)
                   (TrimSpace provider)) w) as Hq.
  destruct (evtQuery be channel _ w) as [[hQuery | e | p] w1]; cbn [fst] in *.
  - destruct (_ <=? max_slice_cap lib); [| done].
    pose proof (fetchLoop_errors lib be hQuery
                  (if maxEvents <=? 0 then defaultMaxEvents else maxEvents) script []
                  {| trace := trace w1; handles := ∅ |}) as Hloop.
    destruct (fetchLoop lib be hQuery _ script [] _) as [[recs | e | p] w2];
      cbn [fst] in *; try done.
    + by destruct (json_Encode lib recs).
    + by destruct e.
  - by destruct Hq as [err ->].
  - done.
Qed.

(** ** Releasing the cache *)

Lemma close_entries_trace (entries : list (string * Z)) :
  ∀ w, trace (snd (close_entries entries w))
       = trace w ++ map EvtClose (List.filter nonzero (map snd entries)).
Proof.
  induction entries as [| [k h] rest IH]; intros w; cbn [close_entries].
  - cbn. by rewrite app_nil_r.
  - unfold bind, evtCloseHandle, procEvtClose, record, cache_delete, ret.
    cbn [map snd List.filter]. unfold nonzero at 1.
    destruct (h =? 0); cbn [negb]; rewrite IH; cbn [trace].
    + reflexivity.
    + by rewrite <- app_assoc.
Qed.

Lemma close_entries_handles (entries : list (string * Z)) :
  ∀ w, (∀ k v, handles w !! k = Some v → In k (map fst entries)) →
       handles (snd (close_entries entries w)) = ∅.
Proof.
  induction entries as [| [k h] rest IH]; intros w Hdom; cbn [close_entries].
  - cbn. apply map_empty. intros i. destruct (handles w !! i) as [v |] eqn:Hi; [| done].
    destruct (Hdom i v Hi).
  - unfold bind, evtCloseHandle, procEvtClose, record, cache_delete, ret.
    destruct (h =? 0); apply IH; cbn [handles]; intros k' v Hk';
      (destruct (decide (k' = k)) as [-> | Hne];
       [by rewrite lookup_delete_eq in Hk' |];
       rewrite lookup_delete_ne in Hk' by done;
       destruct (Hdom k' v Hk') as [Heq | Hin]; [by destruct Hne | exact Hin]).
Qed.

Lemma close_effect (w : world) :
  fst (close w) = Ok tt
  ∧ trace (snd (close w))
    = trace w ++ map EvtClose (List.filter nonzero (map snd (map_to_list (handles w))))
  ∧ handles (snd (close w)) = ∅.
Proof.
  split; [apply close_calls |]. split; [apply close_entries_trace |].
  apply close_entries_handles. intros k v Hk.
  apply (in_map fst _ (k, v)), list_elem_of_In. by apply elem_of_map_to_list.
Qed.

(** X5. [close] cannot fail; it calls the close routine once for every
    cached handle (a zero handle is skipped) and nothing else, and leaves
    the cache empty. *)
Theorem close_releases_all (w : world) :
  fst (close w) = Ok tt
  ∧ trace (snd (close w))
    = trace w ++ map EvtClose (List.filter nonzero (map snd (map_to_list (handles w))))
  ∧ handles (snd (close w)) = ∅.
Proof. apply close_effect. Qed.

(** ** The shape of a run *)

Lemma grows_any (C : call → bool) (w w' : world) : grows_by C w w' → grows_by any_call w w'.
Proof. by apply grows_by_weaken. Qed.

Section Shape.

Variable lib : golib.
Variable be : backend.
Variable hQuery : Z.
Variable maxEvents : Z.

Lemma fetchStep_grows (resp : next_resp) (results : list eventRecord)
    (again : list eventRecord → M (list eventRecord)) (w : world) :
  (∀ results' w', grows_by any_call w' (snd (again results' w'))) →
  grows_by any_call w (snd (fetchStep lib be hQuery maxEvents resp results again w)).
Proof.
  intros Hagain. unfold fetchStep, bind, attempt.
  destruct (evtNextBatch_calls resp hQuery w) as (Hw & _ & _).
  destruct (evtNextBatch resp hQuery evtNextBatchSize w) as [r w1]; cbn in *; subst w1.
  assert (H1 : grows_by any_call w (after w [EvtNext hQuery evtNextBatchSize 2000 resp]))
    by (by eapply grows_by_one).
  destruct r as [batch | e | p]; cbn; [| by destruct e | done].
  pose proof (grows_any _ _ _ (renderBatch_calls lib be maxEvents batch results
                                 (after w [EvtNext hQuery evtNextBatchSize 2000 resp])))
    as H2.
  destruct (renderBatch lib be maxEvents batch results _) as [[recs | e | p] w2];
    cbn in *; try (by eapply grows_by_trans).
  eapply grows_by_trans; [exact H1 |]. eapply grows_by_trans; [exact H2 |]. apply Hagain.
Qed.

Lemma fetchLoop_grows (script : list next_resp) :
  ∀ results w,
    grows_by any_call w (snd (fetchLoop lib be hQuery maxEvents script results w)).
Proof.
  induction script as [| resp rest IH]; intros results w; rewrite fetchLoop_unfold;
    destruct (Z.of_nat (length results) <? maxEvents);
    try apply grows_by_refl; apply fetchStep_grows; [intros; apply grows_by_refl | done].
Qed.

End Shape.

Lemma evtQuery_result (be : backend) (path query : string) (w : world) :
  (∃ e, evtQuery be path query w
        = (Err (ErrEvtQuery e),
           after w [EvtQuery path query
                      (Z.lor evtQueryChannelPath evtQueryTolerateQueryErrs) 0]))
  ∨ (∃ h, h ≠ 0
          ∧ evtQuery be path query w
            = (Ok h, after w [EvtQuery path query
                                (Z.lor evtQueryChannelPath evtQueryTolerateQueryErrs) h])).
Proof.
  unfold evtQuery, procEvtQuery, bind, history, record; cbn.
  destruct (be_EvtQuery be (trace w) path query _) as [r err]; cbn.
  destruct (Z.eqb_spec r 0) as [-> | Hnz]; [left; by exists err | right; by exists r].
Qed.

(** The query text a run sends. *)
Lemma fetchEvents_shape (lib : golib) (be : backend) (script : list next_resp)
    (logName provider : string) (minutes maxEvents : Z) (w : world) :
  let query :=
    buildQuery lib
      (int_mul (int_mul (if minutes <=? 0 then defaultLookbackMinutes else minutes) 60) 1000)
      provider in
  (has_nul logName = true
   ∧ fetchEvents lib be script logName provider minutes maxEvents w = (Err ErrPathUTF16, w))
  ∨ (has_nul logName = false
     ∧ ∃ e, fetchEvents lib be script logName provider minutes maxEvents w
            = (Err (ErrEvtQuery e), after w [EvtQuery logName query 0x1001 0]))
  ∨ (has_nul logName = false
     ∧ ∃ h calls,
         h ≠ 0
         ∧ trace (snd (fetchEvents lib be script logName provider minutes maxEvents w))
           = trace w ++ EvtQuery logName query 0x1001 h :: calls ++ [EvtClose h]
         ∧ handles (snd (fetchEvents lib be script logName provider minutes maxEvents w))
           = ∅).
Proof.
  intros query. rewrite fetchEvents_unfold. cbv zeta.
  rewrite (proj2 (buildQuery_text _ _ provider)). fold query.
  destruct (UTF16PtrFromString logName) as [pathPtr |] eqn:Hpath;
    unfold UTF16PtrFromString in Hpath;
    destruct (has_nul logName); try discriminate; [| by left].
  injection Hpath as <-.
  destruct (evtQuery_result be logName query w) as [[e He] | (h & Hh & He)]; rewrite He.
  - right; left. split; [done |]. by exists e.
  - right; right. split; [done |]. exists h.
    destruct (_ <=? max_slice_cap lib).
    2: { exists []. split; [done |]. rewrite evtCloseHandle_after.
         destruct (Z.eqb_spec h 0) as [? | _]; [done |].
         cbn [fst snd after trace handles]. split; [| done].
         by rewrite <- app_assoc. }
    pose proof (fetchLoop_grows lib be h
                  (if maxEvents <=? 0 then defaultMaxEvents else maxEvents) script []
                  {| trace := trace (after w [EvtQuery logName query 0x1001 h]);
                     handles := ∅ |}) as (c1 & E1 & _).
    destruct (fetchLoop lib be h _ script [] _) as [r w2]; cbn [fst snd] in *.
    destruct (close_effect w2) as (_ & E2 & Hempty).
    set (c2 := map EvtClose (List.filter nonzero (map snd (map_to_list (handles w2))))) in *.
    exists (c1 ++ c2). split; [done |].
    unfold evtCloseHandle. destruct (Z.eqb_spec h 0) as [? | _]; [done |].
    unfold procEvtClose, record; cbn [fst snd trace handles].
    split; [| exact Hempty].
    rewrite E2, E1. cbn [after trace]. rewrite <- !app_assoc. reflexivity.
Qed.

(** X6. A run of [fetchEvents] has one of three shapes.  It makes no call
    at all (the channel name could not be converted); or its only call is
    the query, which failed; or the query gave a handle and then, however
    the run ends (records, error or panic), its last call closes that
    handle and the publisher cache is left empty. *)
Theorem fetchEvents_brackets (lib : golib) (be : backend) (script : list next_resp)
    (logName provider : string) (minutes maxEvents : Z) (w : world) :
  fetchEvents lib be script logName provider minutes maxEvents w = (Err ErrPathUTF16, w)
  ∨ (∃ query e,
       fetchEvents lib be script logName provider minutes maxEvents w
       = (Err (ErrEvtQuery e), after w [EvtQuery logName query 0x1001 0]))
  ∨ (∃ query h calls,
       h ≠ 0
       ∧ trace (snd (fetchEvents lib be script logName provider minutes maxEvents w))
         = trace w ++ EvtQuery logName query 0x1001 h :: calls ++ [EvtClose h]
       ∧ handles (snd (fetchEvents lib be script logName provider minutes maxEvents w)) = ∅).
Proof.
  destruct (fetchEvents_shape lib be script logName provider minutes maxEvents w)
    as [[_ H] | [[_ [e H]] | [_ (h & calls & H)]]].
  - by left.
  - right; left. eauto.
  - right; right. eauto.
Qed.

Lemma int_wrap_small (z : Z) : - 2 ^ 63 ≤ z < 2 ^ 63 → int_wrap z = z.
Proof.
  intros H. unfold int_wrap. rewrite Z.mod_small by lia. lia.
Qed.

(** X7. For a lookback between 1 and 153722867280912 minutes and a channel
    name without NUL byte, the first call of a run is the query of that
    channel for events at most [minutes * 60000] milliseconds old (no
    wrap-around), with the flags "channel path" and "tolerate query
    errors". *)
Theorem fetchEvents_lookback (lib : golib) (be : backend) (script : list next_resp)
    (logName provider : string) (minutes maxEvents : Z) (w : world) :
  0 < minutes ≤ max_minutes →
  has_nul logName = false →
  ∃ r calls,
    trace (snd (fetchEvents lib be script logName provider minutes maxEvents w))
    = trace w
        ++ EvtQuery logName (buildQuery lib (minutes * 60000) provider)
             (Z.lor evtQueryChannelPath evtQueryTolerateQueryErrs) r :: calls.
Proof.
  intros Hmin Hnul. unfold max_minutes in Hmin.
  assert (Hms : int_mul (int_mul (if minutes <=? 0 then defaultLookbackMinutes else minutes)
                           60) 1000 = minutes * 60000).
  { destruct (Z.leb_spec minutes 0) as [? | _]; [lia |].
    unfold int_mul. rewrite (int_wrap_small (minutes * 60)) by lia.
    rewrite int_wrap_small by lia. lia. }
  pose proof (fetchEvents_shape lib be script logName provider minutes maxEvents w) as H.
  cbv zeta in H. rewrite Hms in H.
  destruct H as [[Hc _] | [[_ [e H]] | [_ (h & calls & _ & H & _)]]].
  - congruence.
  - rewrite H. by exists 0, [].
  - rewrite H. by exists h, (calls ++ [EvtClose h]).
Qed.

Lemma fetchEvents_lookback_witness :
  (0 < 10 ≤ max_minutes ∧ has_nul "Application" = false)
  ∧ ∃ r calls,
      trace (snd (fetchEvents mock_lib mock_backend mock_script "Application" "" 10 4 start))
      = trace start
          ++ EvtQuery "Application" (buildQuery mock_lib (10 * 60000) "")
               (Z.lor evtQueryChannelPath evtQueryTolerateQueryErrs) r :: calls.
Proof.
  split; [split; [unfold max_minutes; lia | reflexivity] |].
  apply (fetchEvents_lookback mock_lib mock_backend mock_script "Application" "" 10 4 start);
    [unfold max_minutes; lia | reflexivity].
Defined.

Lemma fetchEvents_effective_cap (lib : golib) (be : backend) (script : list next_resp)
    (logName provider : string) (minutes maxEvents : Z) (w : world) :
  Z.of_nat (length (records_of
                      (fst (fetchEvents lib be script logName provider minutes maxEvents w))))
  ≤ (if maxEvents <=? 0 then defaultMaxEvents else maxEvents).
Proof.
  assert (Hpos : 0 ≤ (if maxEvents <=? 0 then defaultMaxEvents else maxEvents)).
  { destruct (Z.leb_spec maxEvents 0); unfold defaultMaxEvents; lia. }
  rewrite fetchEvents_unfold. cbv zeta.
  destruct (UTF16PtrFromString (buildQuery _ _ provider)) as [queryPtr |]; [| done].
  destruct (UTF16PtrFromString logName) as [pathPtr |]; [| done].
  destruct (evtQuery be pathPtr queryPtr w) as [[hQuery | e | p] w1]; cbn [fst]; try done.
  destruct (_ <=? max_slice_cap lib); [| done].
  pose proof (fetchLoop_cap lib be hQuery
                (if maxEvents <=? 0 then defaultMaxEvents else maxEvents) script []
                {| trace := trace w1; handles := ∅ |} Hpos) as Hloop.
  by destruct (fetchLoop lib be hQuery _ script [] _) as [r w2].
Qed.

(** X8. A cap that is not positive stands for 256: the run is the run with
    a cap of 256 and returns at most 256 records. *)
Theorem fetchEvents_default_cap (lib : golib) (be : backend) (script : list next_resp)
    (logName provider : string) (minutes maxEvents : Z) (w : world) :
  maxEvents ≤ 0 →
  fetchEvents lib be script logName provider minutes maxEvents w
  = fetchEvents lib be script logName provider minutes defaultMaxEvents w
  ∧ (length (records_of
               (fst (fetchEvents lib be script logName provider minutes maxEvents w)))
     ≤ 256)%nat.
Proof.
  intros Hle.
  assert (Heq : fetchEvents lib be script logName provider minutes maxEvents w
                = fetchEvents lib be script logName provider minutes defaultMaxEvents w).
  { rewrite !fetchEvents_unfold. cbv zeta.
    destruct (Z.leb_spec maxEvents 0) as [_ | ?]; [reflexivity | lia]. }
  split; [exact Heq |]. rewrite Heq.
  pose proof (fetchEvents_effective_cap lib be script logName provider minutes
                defaultMaxEvents w) as H.
  unfold defaultMaxEvents in *. cbn in H. lia.
Qed.

Lemma fetchEvents_default_cap_witness :
  -1 ≤ 0
  ∧ fetchEvents mock_lib mock_backend mock_script "Application" "" 10 (-1) start
    = fetchEvents mock_lib mock_backend mock_script "Application" "" 10 defaultMaxEvents start
  ∧ (length (records_of
               (fst (fetchEvents mock_lib mock_backend mock_script "Application" "" 10 (-1)
                       start)))
     ≤ 256)%nat.
Proof.
  split; [lia |].
  apply (fetchEvents_default_cap mock_lib mock_backend mock_script "Application" "" 10 (-1)
           start).
  lia.
Defined.

(** ** One batch fetch *)

Lemma written_length (buf data : list Z) : length (written buf data) = length buf.
Proof.
  unfold written. rewrite length_take, length_app, length_drop. lia.
Qed.

Lemma evtNextBatch_cases (resp : next_resp) (hQuery : Z) (batch : nat) (w : world) :
  match fst (evtNextBatch resp hQuery batch w) with
  | Ok hs =>
      nx_r resp ≠ 0 ∧ length hs = nx_returned resp ∧ (length hs ≤ batch)%nat
  | Err e =>
      nx_r resp = 0
      ∧ e = (if is_errno (nx_err resp) ERROR_NO_MORE_ITEMS then ErrNoMoreItems
             else ErrEvtNext (nx_err resp))
  | Panic _ => batch = 0%nat ∨ (nx_r resp ≠ 0 ∧ (batch < nx_returned resp)%nat)
  end.
Proof.
  unfold evtNextBatch. destruct batch as [| n]; [by left |].
  unfold bind, procEvtNext, record, make_slice; cbn -[written repeat Nat.leb].
  destruct (Z.eqb_spec (nx_r resp) 0) as [Hz | Hnz].
  - by destruct (is_errno _ _).
  - rewrite written_length, repeat_length.
    destruct (Nat.leb_spec (nx_returned resp) (S n)) as [Hle | Hgt]; cbn -[written repeat].
    + split; [done |]. rewrite length_take, written_length, repeat_length. lia.
    + right. split; [done | lia].
Qed.

(** X9. [evtNextBatch] hands back exactly as many handles as the subsystem
    reported, never more than the batch size; it fails exactly when the
    call returned zero, with "no more items" itself or the wrapped error;
    and it panics only for an empty batch or a count beyond the batch
    size. *)
Theorem evtNextBatch_bounds (resp : next_resp) (hQuery : Z) (batch : nat) (w : world) :
  match fst (evtNextBatch resp hQuery batch w) with
  | Ok hs =>
      nx_r resp ≠ 0 ∧ length hs = nx_returned resp ∧ (length hs ≤ batch)%nat
  | Err e =>
      nx_r resp = 0
      ∧ e = (if is_errno (nx_err resp) ERROR_NO_MORE_ITEMS then ErrNoMoreItems
             else ErrEvtNext (nx_err resp))
  | Panic _ => batch = 0%nat ∨ (nx_r resp ≠ 0 ∧ (batch < nx_returned resp)%nat)
  end.
Proof. apply evtNextBatch_cases. Qed.

(** ** A publisher that cannot be opened *)

(** X10. A failed [get] caches nothing.  Either the provider name holds a
    NUL byte and no call is made, or the open call returned zero; in both
    cases the cache is as before, so the next request for the provider
    asks the subsystem again. *)
Theorem get_failure_not_cached (be : backend) (provider : string) (e : error)
    (w w' : world) :
  get be provider w = (Err e, w') →
  handles w !! provider = None
  ∧ handles w' = handles w
  ∧ ((e = ErrPublisherUTF16 ∧ has_nul provider = true ∧ w' = w)
     ∨ (∃ err, e = ErrEvtOpenPublisherMetadata err
               ∧ has_nul provider = false
               ∧ w' = after w [EvtOpenPublisherMetadata provider 0])).
Proof.
  unfold get, bind, cache_lookup.
  destruct (handles w !! provider) as [h |]; cbn; [discriminate |].
  unfold from_option, UTF16PtrFromString.
  destruct (has_nul provider); cbn.
  { intros [= <- <-]. split; [done |]. split; [done |]. by left. }
  unfold procEvtOpenPublisherMetadata, bind, history, record; cbn.
  destruct (be_EvtOpenPublisherMetadata be (trace w) provider) as [r err]; cbn.
  destruct (Z.eqb_spec r 0) as [-> | Hnz]; cbn; [| discriminate].
  intros [= <- <-]. split; [done |]. split; [done |]. right. by exists err.
Qed.

Lemma get_failure_not_cached_witness :
  get no_publisher_backend "Svc" start
  = (Err (ErrEvtOpenPublisherMetadata (Errno 2)),
     after start [EvtOpenPublisherMetadata "Svc" 0])
  ∧ handles (after start [EvtOpenPublisherMetadata "Svc" 0]) = handles start
  ∧ get no_publisher_backend "Svc" (after start [EvtOpenPublisherMetadata "Svc" 0])
    = (Err (ErrEvtOpenPublisherMetadata (Errno 2)),
       after start [EvtOpenPublisherMetadata "Svc" 0; EvtOpenPublisherMetadata "Svc" 0]).
Proof.
  assert (Hget : get no_publisher_backend "Svc" start
                 = (Err (ErrEvtOpenPublisherMetadata (Errno 2)),
                    after start [EvtOpenPublisherMetadata "Svc" 0])) by reflexivity.
  split; [exact Hget |]. split; [| reflexivity].
  exact (proj1 (proj2 (get_failure_not_cached no_publisher_backend "Svc" _ start _ Hget))).
Defined.

(** ** Metadata handles are released *)

Lemma in_calls_class (C : call → bool) (calls : list call) (c : call) :
  forallb C calls = true → In c calls → C c = true.
Proof. intros F Hin. by apply (proj1 (forallb_forall C calls) F). Qed.

Lemma opened_cached_grows (w w' : world) :
  opened_cached w → grows_by not_open w w' → handles w' = handles w → opened_cached w'.
Proof.
  intros Hoc (calls & E & F) Hh p h Hin Hnz. rewrite Hh.
  rewrite E in Hin. apply in_app_or in Hin as [Hin | Hin]; [by apply Hoc |].
  by pose proof (in_calls_class _ _ _ F Hin).
Qed.

Section Metadata.

Variable lib : golib.
Variable be : backend.

Lemma get_opened_cached (provider : string) (w : world) :
  opened_cached w → opened_cached (snd (get be provider w)).
Proof.
  intros Hoc. unfold get, bind, cache_lookup.
  destruct (handles w !! provider) as [h0 |] eqn:Hc; cbn; [done |].
  unfold from_option, UTF16PtrFromString.
  destruct (has_nul provider); cbn; [done |].
  unfold procEvtOpenPublisherMetadata, bind, history, record; cbn.
  destruct (be_EvtOpenPublisherMetadata be (trace w) provider) as [r err]; cbn.
  destruct (Z.eqb_spec r 0) as [-> | Hnz]; cbn; intros p h Hin Hh; cbn in *;
    apply in_app_or in Hin as [Hin | [[= <- <-] | []]]; try done.
  - by apply Hoc.
  - destruct (decide (provider = p)) as [<- | Hne].
    + specialize (Hoc _ _ Hin Hh). congruence.
    + rewrite lookup_insert_ne by done. by apply Hoc.
  - apply lookup_insert_eq.
Qed.

Lemma parseEvent_opened_cached (hEvt : Z) (w : world) :
  opened_cached w → opened_cached (snd (parseEvent lib be hEvt w)).
Proof.
  intros Hoc. unfold parseEvent, bind.
  destruct (renderEventXML_calls lib be hEvt w) as [Hg%grows_quiet_not_open Hh].
  pose proof (opened_cached_grows _ _ Hoc Hg Hh) as H1.
  destruct (renderEventXML lib be hEvt w) as [[xmlText | e | p] w1]; cbn in *; try done.
  unfold from_option.
  destruct (xml_Unmarshal lib xmlText) as [parsed |]; cbn; [| done].
  destruct (time_Parse lib _) as [timestamp |]; cbn; [| done].
  pose proof (get_opened_cached (System_Provider_Name parsed) w1 H1) as H2.
  destruct (get be _ w1) as [[meta | e | p] w2]; cbn in *; try done.
  destruct (formatMessage_calls lib be meta hEvt w2) as [Hg2%grows_quiet_not_open Hh2].
  pose proof (opened_cached_grows _ _ H2 Hg2 Hh2) as H3.
  by destruct (formatMessage lib be meta hEvt w2) as [[msg | e | p] w3].
Qed.

Lemma renderBatch_opened_cached (maxEvents : Z) (batch : list Z) :
  ∀ results w,
    opened_cached w → opened_cached (snd (renderBatch lib be maxEvents batch results w)).
Proof.
  induction batch as [| hEvt rest IH]; intros results w Hoc; cbn; [done |].
  unfold bind, attempt.
  pose proof (parseEvent_opened_cached hEvt w Hoc) as H1.
  destruct (parseEvent lib be hEvt w) as [[rec | e | p] w1]; cbn in *; try done;
    destruct (evtCloseHandle_calls hEvt w1) as (Hok & Hg%grows_quiet_not_open & Hh);
    pose proof (opened_cached_grows _ _ H1 Hg Hh) as H2;
    destruct (evtCloseHandle hEvt w1) as [r w2]; cbn in *; subst r; [| done].
  destruct (_ >=? maxEvents); cbn; [done | by apply IH].
Qed.

Lemma fetchStep_opened_cached (hQuery maxEvents : Z) (resp : next_resp)
    (results : list eventRecord) (again : list eventRecord → M (list eventRecord))
    (w : world) :
  (∀ results' w', opened_cached w' → opened_cached (snd (again results' w'))) →
  opened_cached w →
  opened_cached (snd (fetchStep lib be hQuery maxEvents resp results again w)).
Proof.
  intros Hagain Hoc. unfold fetchStep, bind, attempt.
  destruct (evtNextBatch_calls resp hQuery w) as (Hw & _ & _).
  assert (H1 : opened_cached (after w [EvtNext hQuery evtNextBatchSize 2000 resp])).
  { apply (opened_cached_grows w); [done | by eapply grows_by_one | done]. }
  destruct (evtNextBatch resp hQuery evtNextBatchSize w) as [r w1]; cbn in *; subst w1.
  destruct r as [batch | e | p]; cbn; [| by destruct e | done].
  pose proof (renderBatch_opened_cached maxEvents batch results _ H1) as H2.
  destruct (renderBatch lib be maxEvents batch results _) as [[recs | e | p] w2];
    cbn in *; try done. by apply Hagain.
Qed.

Lemma fetchLoop_opened_cached (hQuery maxEvents : Z) (script : list next_resp) :
  ∀ results w,
    opened_cached w →
    opened_cached (snd (fetchLoop lib be hQuery maxEvents script results w)).
Proof.
  induction script as [| resp rest IH]; intros results w Hoc; rewrite fetchLoop_unfold;
    destruct (Z.of_nat (length results) <? maxEvents); try done;
    by apply fetchStep_opened_cached.
Qed.

End Metadata.

Lemma opened_handles_app (t e : list call) :
  opened_handles (t ++ e) = opened_handles t ++ opened_handles e.
Proof. apply omap_app. Qed.

Lemma closed_handles_app (t e : list call) :
  closed_handles (t ++ e) = closed_handles t ++ closed_handles e.
Proof. apply omap_app. Qed.

Lemma opened_handles_not_open (calls : list call) :
  forallb not_open calls = true → opened_handles calls = [].
Proof.
  induction calls as [| c calls IH]; cbn; [done |].
  intros [Hc Hrest]%andb_prop. destruct c; cbn in *; try discriminate; by apply IH.
Qed.

Lemma opened_handles_in (t : list call) (h : Z) :
  In h (opened_handles t) → h ≠ 0 ∧ ∃ p, In (EvtOpenPublisherMetadata p h) t.
Proof.
  induction t as [| c t IH]; cbn; [done |].
  destruct c; cbn; try (intros [Hnz [p Hp]]%IH; eauto).
  destruct (Z.eqb_spec r 0) as [-> | Hnz]; cbn.
  - intros [Hnz [p Hp]]%IH; eauto.
  - intros [<- | [Hnz' [p Hp]]%IH]; eauto.
Qed.

Lemma closed_handles_in (t : list call) (h : Z) :
  In (EvtClose h) t → In h (closed_handles t).
Proof.
  induction t as [| c t IH]; cbn; [done |].
  intros [-> | Hin]; [by left |]. destruct c; cbn; auto.
Qed.

(** X11. No metadata handle outlives a run: every handle a run of
    [fetchEvents] got from [EvtOpenPublisherMetadata] has been passed to the
    close routine when the run is over, whether it ends with records, an
    error or a panic. *)
Theorem fetchEvents_closes_metadata (lib : golib) (be : backend) (script : list next_resp)
    (logName provider : string) (minutes maxEvents : Z) :
  Forall (fun h => In h (closed_handles
                           (trace (snd (fetchEvents lib be script logName provider minutes
                                          maxEvents start)))))
    (opened_handles
       (trace (snd (fetchEvents lib be script logName provider minutes maxEvents start)))).
Proof.
  rewrite fetchEvents_unfold. cbv zeta.
  destruct (UTF16PtrFromString (buildQuery _ _ provider)) as [queryPtr |]; [| by constructor].
  destruct (UTF16PtrFromString logName) as [pathPtr |]; [| by constructor].
  destruct (evtQuery_calls be pathPtr queryPtr start) as [Hg%grows_quiet_not_open _].
  assert (Hnone : ∀ w, grows_by not_open start w → opened_handles (trace w) = []).
  { intros w (calls & E & F). rewrite E. cbn. by apply opened_handles_not_open. }
  destruct (evtQuery be pathPtr queryPtr start) as [[hQuery | e | p] w1]; cbn [fst snd] in *;
    try (rewrite (Hnone _ Hg); by constructor).
  assert (Hoc : opened_cached {| trace := trace w1; handles := ∅ |}).
  { intros p h Hin Hnz. cbn in Hin.
    assert (Hh : In h (opened_handles (trace w1))).
    { clear -Hin Hnz. induction (trace w1) as [| c t IH]; [done |].
      destruct Hin as [-> | Hin]; cbn.
      - destruct (Z.eqb_spec h 0); [done | by left].
      - destruct c; cbn; auto. destruct (r =? 0); cbn; auto. }
    rewrite (Hnone _ Hg) in Hh. destruct Hh. }
  destruct (_ <=? max_slice_cap lib); cbn [fst snd].
  2: { destruct (evtCloseHandle_calls hQuery {| trace := trace w1; handles := ∅ |})
         as (_ & Hg3%grows_quiet_not_open & _).
       rewrite (Hnone _ (grows_by_trans _ _ _ _ Hg Hg3)). by constructor. }
  pose proof (fetchLoop_opened_cached lib be hQuery
                (if maxEvents <=? 0 then defaultMaxEvents else maxEvents) script [] _ Hoc)
    as Hoc2.
  destruct (fetchLoop lib be hQuery _ script [] _) as [r w2]; cbn [fst snd] in *.
  destruct (close_effect w2) as (_ & E2 & _).
  destruct (evtCloseHandle_calls hQuery (snd (close w2)))
    as (_ & (c3 & E3 & F3)%grows_quiet_not_open & _).
  rewrite E3, E2, !opened_handles_app, (opened_handles_not_open c3 F3), app_nil_r.
  rewrite (opened_handles_not_open (map EvtClose _)), app_nil_r
    by (apply forallb_forall; by intros c [h [<- _]]%in_map_iff).
  apply Forall_forall. intros h [Hnz [p Hp]]%list_elem_of_In%opened_handles_in.
  rewrite !closed_handles_app. apply in_or_app; left. apply in_or_app; right.
  apply closed_handles_in, in_map, filter_In.
  split; [| unfold nonzero; by destruct (Z.eqb_spec h 0)].
  apply (in_map snd _ (p, h)), list_elem_of_In, elem_of_map_to_list. by apply Hoc2.
Qed.

(** ** Event handles that were rendered are released *)

Lemma event_call_refl_render (hEvt flags : Z) (n l : nat) :
  event_call hEvt (EvtRender hEvt flags n l) = true.
Proof. apply Z.eqb_refl. Qed.

Lemma event_call_refl_format (meta hEvt flags : Z) (n l : nat) :
  event_call hEvt (EvtFormatMessage meta hEvt flags n l) = true.
Proof. apply Z.eqb_refl. Qed.

Section Event.

Variable lib : golib.
Variable be : backend.

Lemma renderEventXML_event (hEvt : Z) (w : world) :
  grows_by (event_call hEvt) w (snd (renderEventXML lib be hEvt w)).
Proof.
  unfold renderEventXML, procEvtRender, bind, history, record; cbn -[event_call].
  set (w1 := {| trace := trace w ++ [EvtRender hEvt evtRenderEventXML 0 0];
                handles := handles w |}).
  assert (H1 : grows_by (event_call hEvt) w w1)
    by (eapply grows_by_one; [done | apply event_call_refl_render]).
  destruct (sz_r _ =? 0); [destruct (negb _) |]; cbn -[event_call]; try done;
    (destruct (sz_used _) as [| n]; cbn -[event_call]; [done |];
     match goal with |- context [if ?b then fail _ else _] => destruct b end;
     cbn -[event_call];
     (eapply grows_by_trans; [exact H1 |]);
     (eapply grows_by_one; [done | apply event_call_refl_render])).
Qed.

Lemma formatMessage_event (meta hEvt : Z) (w : world) :
  grows_by (event_call hEvt) w (snd (formatMessage lib be meta hEvt w)).
Proof.
  unfold formatMessage, procEvtFormatMessage, bind, history, record; cbn -[event_call].
  set (w1 := {| trace := trace w ++ [EvtFormatMessage meta hEvt evtFormatMessageEvent 0 0];
                handles := handles w |}).
  assert (H1 : grows_by (event_call hEvt) w w1)
    by (eapply grows_by_one; [done | apply event_call_refl_format]).
  destruct (sz_r _ =? 0); [destruct (negb _) |]; cbn -[event_call]; try done;
    (destruct (sz_used _) as [| n]; cbn -[event_call]; [done |];
     match goal with |- context [if ?b then fail _ else _] => destruct b end;
     cbn -[event_call];
     (eapply grows_by_trans; [exact H1 |]);
     (eapply grows_by_one; [done | apply event_call_refl_format])).
Qed.

Lemma get_event (hEvt : Z) (provider : string) (w : world) :
  grows_by (event_call hEvt) w (snd (get be provider w)).
Proof.
  unfold get, bind, cache_lookup.
  destruct (handles w !! provider) as [h |]; cbn; [apply grows_by_refl |].
  unfold from_option, UTF16PtrFromString.
  destruct (has_nul provider); cbn; [apply grows_by_refl |].
  unfold procEvtOpenPublisherMetadata, bind, history, record; cbn.
  destruct (be_EvtOpenPublisherMetadata be (trace w) provider) as [r err]; cbn.
  destruct (r =? 0); cbn; by eapply grows_by_one.
Qed.

(** All [parseEvent] calls is rendering and formatting its event and
    opening a publisher. *)
Lemma parseEvent_event (hEvt : Z) (w : world) :
  grows_by (event_call hEvt) w (snd (parseEvent lib be hEvt w)).
Proof.
  unfold parseEvent, bind.
  pose proof (renderEventXML_event hEvt w) as Hg.
  destruct (renderEventXML lib be hEvt w) as [[xmlText | e | p] w1]; cbn in *; try done.
  unfold from_option.
  destruct (xml_Unmarshal lib xmlText) as [parsed |]; cbn; [| done].
  destruct (time_Parse lib _) as [timestamp |]; cbn; [| done].
  pose proof (get_event hEvt (System_Provider_Name parsed) w1) as Hg1.
  destruct (get be _ w1) as [[meta | e | p] w2]; cbn in *;
    try (by eapply grows_by_trans).
  pose proof (formatMessage_event meta hEvt w2) as Hg2.
  destruct (formatMessage lib be meta hEvt w2) as [[msg | e | p] w3]; cbn in *;
    (eapply grows_by_trans; [exact Hg |]); by eapply grows_by_trans.
Qed.

End Event.

Lemma rendered_handles_app (t e : list call) :
  rendered_handles (t ++ e) = rendered_handles t ++ rendered_handles e.
Proof. apply omap_app. Qed.

Lemma closed_handles_event (hEvt : Z) (calls : list call) :
  forallb (event_call hEvt) calls = true → closed_handles calls = [].
Proof.
  induction calls as [| c calls IH]; cbn -[event_call]; [done |].
  intros [Hc Hrest]%andb_prop. destruct c; cbn in *; try discriminate; by apply IH.
Qed.

Lemma rendered_handles_event (hEvt : Z) (calls : list call) :
  forallb (event_call hEvt) calls = true →
  Forall (fun h => h = hEvt) (rendered_handles calls).
Proof.
  induction calls as [| c calls IH]; cbn -[event_call]; [constructor |].
  intros [Hc Hrest]%andb_prop. destruct c; cbn in *; try discriminate; try by apply IH.
  constructor; [by apply Z.eqb_eq | by apply IH].
Qed.

Lemma rendered_handles_closes (hs : list Z) : rendered_handles (map EvtClose hs) = [].
Proof. induction hs as [| h hs IH]; [done | exact IH]. Qed.

Lemma rendered_closed_extend (w w' : world) (calls : list call) :
  rendered_closed w →
  trace w' = trace w ++ calls →
  Forall (fun h => h = 0 ∨ In h (closed_handles (trace w'))) (rendered_handles calls) →
  rendered_closed w'.
Proof.
  intros HK E Hnew. unfold rendered_closed. rewrite E at 1.
  rewrite rendered_handles_app. apply Forall_app. split; [| exact Hnew].
  eapply Forall_impl; [exact HK |]. intros h [-> | Hin]; [by left | right].
  rewrite E, closed_handles_app. apply in_or_app. by left.
Qed.

Section Rendered.

Variable lib : golib.
Variable be : backend.

Lemma renderBatch_rendered_closed (maxEvents : Z) (batch : list Z) :
  ∀ results w,
    rendered_closed w →
    is_panic (fst (renderBatch lib be maxEvents batch results w)) = false →
    rendered_closed (snd (renderBatch lib be maxEvents batch results w)).
Proof.
  induction batch as [| hEvt rest IH]; intros results w HK; cbn; [done |].
  unfold bind, attempt.
  destruct (parseEvent_event lib be hEvt w) as (c1 & E1 & F1).
  destruct (parseEvent lib be hEvt w) as [[rec | e | p] w1]; cbn [fst snd] in *;
    [| | discriminate]; rewrite evtCloseHandle_after; cbn [fst snd].
  all: assert (HK2 : rendered_closed (after w1 (if hEvt =? 0 then [] else [EvtClose hEvt]))).
  1, 3: apply (rendered_closed_extend w _
                 (c1 ++ (if hEvt =? 0 then [] else [EvtClose hEvt])) HK);
    [cbn [after trace]; by rewrite E1, app_assoc |];
    rewrite rendered_handles_app;
    replace (rendered_handles (if hEvt =? 0 then [] else [EvtClose hEvt])) with (@nil Z)
      by (by destruct (hEvt =? 0));
    rewrite app_nil_r;
    (eapply Forall_impl; [exact (rendered_handles_event _ _ F1) |]);
    intros h ->; cbn [after trace]; rewrite closed_handles_app;
    (destruct (Z.eqb_spec hEvt 0) as [? | Hnz]; [by left | right]);
    apply in_or_app; right; by left.
  - destruct (_ >=? maxEvents); cbn [fst snd]; [done | by apply IH].
  - done.
Qed.

Lemma fetchStep_rendered_closed (hQuery maxEvents : Z) (resp : next_resp)
    (results : list eventRecord) (again : list eventRecord → M (list eventRecord))
    (w : world) :
  (∀ results' w', rendered_closed w' →
     is_panic (fst (again results' w')) = false → rendered_closed (snd (again results' w'))) →
  rendered_closed w →
  is_panic (fst (fetchStep lib be hQuery maxEvents resp results again w)) = false →
  rendered_closed (snd (fetchStep lib be hQuery maxEvents resp results again w)).
Proof.
  intros Hagain HK. unfold fetchStep, bind, attempt.
  destruct (evtNextBatch_calls resp hQuery w) as (Hw & _ & _).
  assert (H1 : rendered_closed (after w [EvtNext hQuery evtNextBatchSize 2000 resp])).
  { apply (rendered_closed_extend w _ [EvtNext hQuery evtNextBatchSize 2000 resp] HK);
      [done | by constructor]. }
  destruct (evtNextBatch resp hQuery evtNextBatchSize w) as [r w1]; cbn [fst snd] in *;
    subst w1.
  destruct r as [batch | e | p]; cbn [fst snd]; [| by destruct e | discriminate].
  pose proof (renderBatch_rendered_closed maxEvents batch results _ H1) as H2.
  destruct (renderBatch lib be maxEvents batch results _) as [[recs | e | p] w2];
    cbn [fst snd] in *; [| by auto | discriminate].
  apply Hagain. by apply H2.
Qed.

Lemma fetchLoop_rendered_closed (hQuery maxEvents : Z) (script : list next_resp) :
  ∀ results w,
    rendered_closed w →
    is_panic (fst (fetchLoop lib be hQuery maxEvents script results w)) = false →
    rendered_closed (snd (fetchLoop lib be hQuery maxEvents script results w)).
Proof.
  induction script as [| resp rest IH]; intros results w HK; rewrite fetchLoop_unfold;
    destruct (Z.of_nat (length results) <? maxEvents); try done;
    by apply fetchStep_rendered_closed.
Qed.

End Rendered.

Lemma closed_nonzero_grows (w w' : world) :
  grows_by no_zero_close w w' →
  forallb nonzero (closed_handles (trace w)) = true →
  forallb nonzero (closed_handles (trace w')) = true.
Proof.
  intros (calls & E & F) H. rewrite E, closed_handles_app, forallb_app, H.
  clear -F. induction calls as [| c calls IH]; [done |].
  cbn in F. apply andb_prop in F as [Hc Hrest].
  destruct c; cbn in *; try by apply IH. rewrite Hc. by apply IH.
Qed.

Lemma evtCloseHandle_tidy (h : Z) (w : world) :
  grows_by no_zero_close w (snd (evtCloseHandle h w)).
Proof.
  rewrite evtCloseHandle_after. cbn [snd].
  destruct (Z.eqb_spec h 0) as [? | Hnz].
  - apply grows_by_same. cbn. apply app_nil_r.
  - eapply grows_by_one; [done |]. cbn. unfold nonzero. by destruct (Z.eqb_spec h 0).
Qed.

Lemma close_tidy (w : world) : grows_by no_zero_close w (snd (close w)).
Proof.
  destruct (close_effect w) as (_ & E & _). eexists. split; [exact E |].
  apply forallb_forall. intros c [h [<- Hin%filter_In]]%in_map_iff. apply Hin.
Qed.

Section Tidy.

Variable lib : golib.
Variable be : backend.

Lemma parseEvent_tidy (hEvt : Z) (w : world) :
  grows_by no_zero_close w (snd (parseEvent lib be hEvt w)).
Proof.
  eapply grows_by_weaken; [| apply parseEvent_event]. intros c Hc. by destruct c.
Qed.

Lemma renderBatch_tidy (maxEvents : Z) (batch : list Z) :
  ∀ results w,
    grows_by no_zero_close w (snd (renderBatch lib be maxEvents batch results w)).
Proof.
  induction batch as [| hEvt rest IH]; intros results w; cbn; [apply grows_by_refl |].
  unfold bind, attempt.
  pose proof (parseEvent_tidy hEvt w) as H1.
  destruct (parseEvent lib be hEvt w) as [[rec | e | p] w1]; cbn [fst snd] in *;
    [| | done];
    pose proof (evtCloseHandle_tidy hEvt w1) as H2;
    rewrite evtCloseHandle_after in *; cbn [fst snd] in *;
    [| by eapply grows_by_trans].
  destruct (_ >=? maxEvents); cbn [fst snd]; [by eapply grows_by_trans |].
  eapply grows_by_trans; [exact H1 |]. eapply grows_by_trans; [exact H2 |]. apply IH.
Qed.

Lemma fetchStep_tidy (hQuery maxEvents : Z) (resp : next_resp)
    (results : list eventRecord) (again : list eventRecord → M (list eventRecord))
    (w : world) :
  (∀ results' w', grows_by no_zero_close w' (snd (again results' w'))) →
  grows_by no_zero_close w (snd (fetchStep lib be hQuery maxEvents resp results again w)).
Proof.
  intros Hagain. unfold fetchStep, bind, attempt.
  destruct (evtNextBatch_calls resp hQuery w) as (Hw & _ & _).
  destruct (evtNextBatch resp hQuery evtNextBatchSize w) as [r w1]; cbn in *; subst w1.
  assert (H1 : grows_by no_zero_close w (after w [EvtNext hQuery evtNextBatchSize 2000 resp]))
    by (by eapply grows_by_one).
  destruct r as [batch | e | p]; cbn; [| by destruct e | done].
  pose proof (renderBatch_tidy maxEvents batch results
                (after w [EvtNext hQuery evtNextBatchSize 2000 resp])) as H2.
  destruct (renderBatch lib be maxEvents batch results _) as [[recs | e | p] w2];
    cbn in *; try (by eapply grows_by_trans).
  eapply grows_by_trans; [exact H1 |]. eapply grows_by_trans; [exact H2 |]. apply Hagain.
Qed.

Lemma fetchLoop_tidy (hQuery maxEvents : Z) (script : list next_resp) :
  ∀ results w,
    grows_by no_zero_close w (snd (fetchLoop lib be hQuery maxEvents script results w)).
Proof.
  induction script as [| resp rest IH]; intros results w; rewrite fetchLoop_unfold;
    destruct (Z.of_nat (length results) <? maxEvents);
    try apply grows_by_refl; apply fetchStep_tidy; [intros; apply grows_by_refl | done].
Qed.

End Tidy.

(** X12. A run of [fetchEvents] never passes a zero handle to [EvtClose];
    and unless the run panics, every event handle it rendered, a zero
    handle apart, has been passed to [EvtClose] when the run is over, be it
    a run that fails while parsing that very event. *)
Theorem fetchEvents_closes_rendered (lib : golib) (be : backend) (script : list next_resp)
    (logName provider : string) (minutes maxEvents : Z) :
  forallb nonzero
    (closed_handles
       (trace (snd (fetchEvents lib be script logName provider minutes maxEvents start))))
  = true
  ∧ (is_panic (fst (fetchEvents lib be script logName provider minutes maxEvents start))
     = false →
     rendered_closed
       (snd (fetchEvents lib be script logName provider minutes maxEvents start))).
Proof.
  rewrite fetchEvents_unfold. cbv zeta.
  destruct (UTF16PtrFromString (buildQuery _ _ provider)) as [queryPtr |];
    [| split; [done | by constructor]].
  destruct (UTF16PtrFromString logName) as [pathPtr |]; [| split; [done | by constructor]].
  destruct (evtQuery_result be pathPtr queryPtr start) as [[e He] | (h & Hh & He)];
    rewrite He; [split; [done | by constructor] |].
  set (w1 := {| trace := trace (after start [EvtQuery pathPtr queryPtr 0x1001 h]);
                handles := ∅ |}).
  assert (Hz : forallb nonzero (closed_handles (trace w1)) = true) by done.
  destruct (_ <=? max_slice_cap lib); cbn [fst snd].
  2: { split; [| discriminate].
       by apply (closed_nonzero_grows w1 _ (evtCloseHandle_tidy h w1)). }
  assert (HK : rendered_closed w1) by (by constructor).
  pose proof (fetchLoop_rendered_closed lib be h
                (if maxEvents <=? 0 then defaultMaxEvents else maxEvents) script [] _ HK)
    as Hloop.
  pose proof (fetchLoop_tidy lib be h
                (if maxEvents <=? 0 then defaultMaxEvents else maxEvents) script [] w1)
    as Htidy.
  destruct (fetchLoop lib be h _ script [] _) as [r w2]; cbn [fst snd] in *.
  split.
  - apply (closed_nonzero_grows w1); [| done].
    eapply grows_by_trans; [exact Htidy |].
    eapply grows_by_trans; [apply close_tidy | apply evtCloseHandle_tidy].
  - intros Hp. specialize (Hloop Hp).
    destruct (close_effect w2) as (_ & E2 & _).
    rewrite evtCloseHandle_after; cbn [snd].
    apply (rendered_closed_extend w2 _
             (map EvtClose (List.filter nonzero (map snd (map_to_list (handles w2))))
                ++ (if h =? 0 then [] else [EvtClose h])) Hloop).
    + cbn [after trace]. by rewrite E2, app_assoc.
    + replace (rendered_handles _) with (@nil Z); [constructor |].
      rewrite rendered_handles_app.
      replace (rendered_handles (if h =? 0 then [] else [EvtClose h])) with (@nil Z)
        by (by destruct (h =? 0)).
      rewrite app_nil_r. symmetry. apply rendered_handles_closes.
Qed.

Lemma fetchEvents_closes_rendered_witness :
  is_panic (fst (fetchEvents mock_lib mock_backend mock_script "Application" "" 10 4 start))
  = false
  ∧ forallb nonzero
      (closed_handles
         (trace (snd (fetchEvents mock_lib mock_backend mock_script "Application" "" 10 4
                        start))))
    = true
  ∧ rendered_closed
      (snd (fetchEvents mock_lib mock_backend mock_script "Application" "" 10 4 start)).
Proof.
  split; [reflexivity |].
  destruct (fetchEvents_closes_rendered mock_lib mock_backend mock_script "Application" ""
              10 4) as [Hz Hr].
  split; [exact Hz |]. apply Hr. reflexivity.
Defined.

(** ** Below the cap nothing is left open *)

Lemma delivered_handles_app (t e : list call) :
  delivered_handles (t ++ e) = delivered_handles t ++ delivered_handles e.
Proof. apply flat_map_app. Qed.

Lemma delivered_handles_not_next (calls : list call) :
  forallb not_next calls = true → delivered_handles calls = [].
Proof.
  induction calls as [| c calls IH]; cbn; [done |].
  intros [Hc Hrest]%andb_prop. destruct c; cbn in *; try discriminate; by apply IH.
Qed.

Lemma delivered_handles_grows (w w' : world) :
  grows_by not_next w w' → delivered_handles (trace w') = delivered_handles (trace w).
Proof.
  intros (calls & E & F).
  by rewrite E, delivered_handles_app, (delivered_handles_not_next _ F), app_nil_r.
Qed.

Lemma evtNextBatch_delivered (resp : next_resp) (hQuery : Z) (w : world) (hs : list Z) :
  fst (evtNextBatch resp hQuery evtNextBatchSize w) = Ok hs →
  hs = delivered (EvtNext hQuery evtNextBatchSize 2000 resp).
Proof.
  unfold evtNextBatch, bind, procEvtNext, record, make_slice, evtNextBatchSize, delivered;
    cbn -[written repeat Nat.leb].
  destruct (nx_r resp =? 0); [by destruct (is_errno _ _) |].
  rewrite written_length, repeat_length.
  destruct (_ <=? _)%nat; cbn -[written repeat]; [| discriminate]. by intros [= <-].
Qed.

Section Below_cap.

Variable lib : golib.
Variable be : backend.
Variable hQuery : Z.
Variable maxEvents : Z.

Lemma renderBatch_all (batch : list Z) :
  ∀ results w recs,
    fst (renderBatch lib be maxEvents batch results w) = Ok recs →
    Z.of_nat (length recs) < maxEvents →
    closed_handles (trace (snd (renderBatch lib be maxEvents batch results w)))
    = closed_handles (trace w) ++ List.filter nonzero batch
    ∧ length recs = (length results + length batch)%nat.
Proof.
  induction batch as [| hEvt rest IH]; intros results w recs; cbn [renderBatch].
  - cbn. intros [= <-] _. rewrite app_nil_r. split; [done | lia].
  - unfold bind, attempt.
    destruct (parseEvent_event lib be hEvt w) as (c1 & E1 & F1).
    destruct (parseEvent lib be hEvt w) as [[rec | e | p] w1]; cbn [fst snd] in *;
      [| rewrite evtCloseHandle_after; discriminate | discriminate].
    rewrite evtCloseHandle_after; cbn [fst snd].
    set (w2 := after w1 (if hEvt =? 0 then [] else [EvtClose hEvt])).
    assert (Hc2 : closed_handles (trace w2)
                  = closed_handles (trace w) ++ List.filter nonzero [hEvt]).
    { subst w2. cbn [after trace]. rewrite E1, !closed_handles_app,
        (closed_handles_event _ _ F1), app_nil_r.
      cbn. unfold nonzero. destruct (hEvt =? 0); reflexivity. }
    destruct (Z.geb_spec (Z.of_nat (length (results ++ [rec]))) maxEvents) as [Hge | Hlt];
      cbn [fst snd].
    + intros [= <-] Hlen. lia.
    + intros Hok Hlen. destruct (IH _ w2 _ Hok Hlen) as [Hc Hl].
      rewrite Hc, Hc2, <- app_assoc. split.
      * f_equal. change (hEvt :: rest) with ([hEvt] ++ rest). by rewrite List.filter_app.
      * rewrite Hl, length_app. cbn. lia.
Qed.

Lemma fetchStep_all (resp : next_resp) (results : list eventRecord)
    (again : list eventRecord → M (list eventRecord)) (w : world) :
  (∀ results' w', all_closed maxEvents (again results') results' w') →
  all_closed maxEvents (fetchStep lib be hQuery maxEvents resp results again) results w.
Proof.
  intros Hagain recs. unfold fetchStep, bind, attempt.
  destruct (evtNextBatch_calls resp hQuery w) as (Hw & Hfail & Hgood).
  pose proof (evtNextBatch_delivered resp hQuery w) as Hdel.
  destruct (evtNextBatch resp hQuery evtNextBatchSize w) as [r w1]; cbn [fst snd] in *;
    subst w1.
  set (c := EvtNext hQuery evtNextBatchSize 2000 resp) in *.
  destruct r as [batch | e | p]; cbn [fst snd]; [| | discriminate].
  - specialize (Hdel batch eq_refl).
    pose proof (renderBatch_all batch results (after w [c])) as Hb.
    pose proof (delivered_handles_grows _ _
                  (renderBatch_calls lib be maxEvents batch results (after w [c]))) as Hd.
    destruct (renderBatch lib be maxEvents batch results (after w [c]))
      as [[results' | e | p] w2]; cbn [fst snd] in *; try discriminate.
    intros Hok Hlen. destruct (Hagain results' w2 recs Hok Hlen) as (D & HD & HC & HL).
    destruct (Hb results' eq_refl ltac:(lia)) as [Hc2 Hl2].
    exists (batch ++ D). rewrite HD, HC, Hd, Hc2. cbn [after trace].
    rewrite delivered_handles_app, closed_handles_app. cbn [delivered_handles flat_map].
    rewrite <- Hdel, !app_nil_r, List.filter_app, <- !app_assoc.
    split; [done |]. split; [done |]. rewrite length_app. lia.
  - destruct (Z.eq_dec (nx_r resp) 0) as [Hz | Hnz]; [| by destruct (Hgood Hnz e)].
    specialize (Hfail Hz). injection Hfail as ->.
    destruct (is_errno _ _); unfold ret, fail; cbn [fst snd]; [| discriminate].
    intros [= <-] _. exists []. cbn [after trace].
    rewrite delivered_handles_app, closed_handles_app. subst c. cbn. rewrite Hz. cbn.
    rewrite !app_nil_r. split; [done |]. split; [done | lia].
Qed.

Lemma fetchLoop_all (script : list next_resp) :
  ∀ results w, all_closed maxEvents (fetchLoop lib be hQuery maxEvents script results) results w.
Proof.
  assert (Hret : ∀ results w, all_closed maxEvents (ret results) results w).
  { intros results w recs [= <-] _. exists []. cbn. rewrite !app_nil_r.
    split; [done |]. split; [done | lia]. }
  induction script as [| resp rest IH]; intros results w; rewrite fetchLoop_unfold;
    destruct (Z.of_nat (length results) <? maxEvents); try apply Hret;
    by apply fetchStep_all.
Qed.

End Below_cap.

(** X13. A run that returns fewer records than its (positive) cap leaked
    nothing: it made one record of every handle the batch fetches delivered,
    and passed each of them to the close routine, in the order of delivery,
    before the deferred closes. *)
Theorem fetchEvents_below_cap (lib : golib) (be : backend) (script : list next_resp)
    (logName provider : string) (minutes maxEvents : Z) (recs : list eventRecord)
    (w' : world) :
  0 < maxEvents →
  fetchEvents lib be script logName provider minutes maxEvents start = (Ok recs, w') →
  Z.of_nat (length recs) < maxEvents →
  length recs = length (delivered_handles (trace w'))
  ∧ ∃ rest, closed_handles (trace w')
            = List.filter nonzero (delivered_handles (trace w')) ++ rest.
Proof.
  intros Hpos. rewrite fetchEvents_unfold. cbv zeta.
  destruct (Z.leb_spec maxEvents 0) as [? | _]; [lia |].
  destruct (UTF16PtrFromString (buildQuery _ _ provider)) as [queryPtr |]; [| discriminate].
  destruct (UTF16PtrFromString logName) as [pathPtr |]; [| discriminate].
  destruct (evtQuery_result be pathPtr queryPtr start) as [[e He] | (h & Hh & He)];
    rewrite He; [discriminate |].
  destruct (_ <=? max_slice_cap lib); [| discriminate].
  pose proof (fetchLoop_all lib be h maxEvents script []
                {| trace := trace (after start [EvtQuery pathPtr queryPtr 0x1001 h]);
                   handles := ∅ |}) as Hall.
  unfold all_closed in Hall.
  destruct (fetchLoop lib be h maxEvents script [] _) as [r w2]; cbn [fst snd] in *.
  intros [= -> <-] Hlen. destruct (Hall recs eq_refl Hlen) as (D & HD & HC & HL).
  cbn in HD, HC, HL.
  destruct (close_effect w2) as (_ & E2 & _).
  rewrite evtCloseHandle_after. cbn [snd after trace]. rewrite E2.
  rewrite !delivered_handles_app, !closed_handles_app, HD, HC.
  rewrite (delivered_handles_not_next (map EvtClose _))
    by (apply forallb_forall; by intros c [x [<- _]]%in_map_iff).
  rewrite (delivered_handles_not_next (if h =? 0 then [] else [EvtClose h]))
    by (by destruct (h =? 0)).
  rewrite !app_nil_r. split; [done |]. rewrite <- app_assoc. eauto.
Qed.

Lemma fetchEvents_below_cap_witness :
  (0 < 10
   ∧ is_ok (fst (fetchEvents mock_lib mock_backend mock_script "Application" "" 10 10 start))
     = true
   ∧ Z.of_nat (length (records_of
                         (fst (fetchEvents mock_lib mock_backend mock_script
                                 "Application" "" 10 10 start)))) < 10)
  ∧ length (records_of (fst (fetchEvents mock_lib mock_backend mock_script
                               "Application" "" 10 10 start)))
    = length (delivered_handles
                (trace (snd (fetchEvents mock_lib mock_backend mock_script
                               "Application" "" 10 10 start))))
  ∧ ∃ rest,
      closed_handles (trace (snd (fetchEvents mock_lib mock_backend mock_script
                                    "Application" "" 10 10 start)))
      = List.filter nonzero
          (delivered_handles (trace (snd (fetchEvents mock_lib mock_backend mock_script
                                            "Application" "" 10 10 start))))
          ++ rest.
Proof.
  split; [split; [lia | split; vm_compute; reflexivity] |].
  apply (fetchEvents_below_cap mock_lib mock_backend mock_script "Application" "" 10 10
           (records_of (fst (fetchEvents mock_lib mock_backend mock_script
                               "Application" "" 10 10 start)))
           (snd (fetchEvents mock_lib mock_backend mock_script "Application" "" 10 10 start)));
    [lia | vm_compute; reflexivity | vm_compute; reflexivity].
Defined.

(** ** What a record looks like *)

Lemma mapLevel_severity (level : Z) : In (mapLevel level) severities.
Proof.
  unfold mapLevel, severities.
  destruct (level =? 2); [cbn; tauto |].
  destruct (level =? 3); [cbn; tauto |].
  destruct (level =? 4); cbn; tauto.
Qed.

Section Records.

Variable lib : golib.
Variable be : backend.

Lemma formatMessage_trimmed (meta hEvt : Z) (w : world) (msg : string) :
  fst (formatMessage lib be meta hEvt w) = Ok msg → TrimSpace msg = msg.
Proof.
  unfold formatMessage, procEvtFormatMessage, bind, history, record; cbn.
  destruct (sz_r _ =? 0); [destruct (negb _) |]; cbn; try discriminate;
    (destruct (sz_used _) as [| n]; cbn; [discriminate |];
     match goal with |- context [if ?b then fail _ else _] => destruct b end; cbn;
     [discriminate |]; intros [= <-]; apply TrimSpace_idem).
Qed.

Lemma parseEvent_well_formed (hEvt : Z) (w : world) (rec : eventRecord) :
  fst (parseEvent lib be hEvt w) = Ok rec → well_formed rec.
Proof.
  unfold parseEvent, bind.
  destruct (renderEventXML lib be hEvt w) as [[xmlText | e | p] w1]; cbn;
    try discriminate.
  unfold from_option.
  destruct (xml_Unmarshal lib xmlText) as [parsed |]; cbn; [| discriminate].
  destruct (time_Parse lib _) as [timestamp |]; cbn; [| discriminate].
  destruct (get be _ w1) as [[meta | e | p] w2]; cbn; try discriminate.
  pose proof (formatMessage_trimmed meta hEvt w2) as Hmsg.
  destruct (formatMessage lib be meta hEvt w2) as [[msg | e | p] w3]; cbn in *;
    try discriminate.
  intros [= <-]. split; cbn; [apply mapLevel_severity | by apply Hmsg].
Qed.

Lemma renderBatch_well_formed (maxEvents : Z) (batch : list Z) :
  ∀ results w,
    Forall well_formed results →
    Forall well_formed (records_of (fst (renderBatch lib be maxEvents batch results w))).
Proof.
  induction batch as [| hEvt rest IH]; intros results w Hwf; cbn; [done |].
  unfold bind, attempt.
  pose proof (parseEvent_well_formed hEvt w) as Hrec.
  destruct (parseEvent lib be hEvt w) as [[rec | e | p] w1]; cbn [fst snd] in *;
    [| rewrite evtCloseHandle_after; by constructor | by constructor].
  rewrite evtCloseHandle_after; cbn [fst snd].
  assert (Hwf' : Forall well_formed (results ++ [rec])).
  { apply Forall_app. split; [done |]. constructor; [by apply Hrec | constructor]. }
  destruct (_ >=? maxEvents); cbn [fst snd]; [done | by apply IH].
Qed.

Lemma fetchStep_well_formed (hQuery maxEvents : Z) (resp : next_resp)
    (results : list eventRecord) (again : list eventRecord → M (list eventRecord))
    (w : world) :
  (∀ results' w', Forall well_formed results' →
     Forall well_formed (records_of (fst (again results' w')))) →
  Forall well_formed results →
  Forall well_formed
    (records_of (fst (fetchStep lib be hQuery maxEvents resp results again w))).
Proof.
  intros Hagain Hwf. unfold fetchStep, bind, attempt.
  destruct (evtNextBatch resp hQuery evtNextBatchSize w) as [[batch | e | p] w1];
    cbn [fst snd]; [| destruct e; by try constructor | by constructor].
  pose proof (renderBatch_well_formed maxEvents batch results w1 Hwf) as Hb.
  destruct (renderBatch lib be maxEvents batch results w1) as [[recs | e | p] w2];
    cbn [fst snd records_of] in *; try by constructor.
  by apply Hagain.
Qed.

Lemma fetchLoop_well_formed (hQuery maxEvents : Z) (script : list next_resp) :
  ∀ results w,
    Forall well_formed results →
    Forall well_formed
      (records_of (fst (fetchLoop lib be hQuery maxEvents script results w))).
Proof.
  induction script as [| resp rest IH]; intros results w Hwf; rewrite fetchLoop_unfold;
    destruct (Z.of_nat (length results) <? maxEvents); try done;
    by apply fetchStep_well_formed.
Qed.

End Records.

(** X14. Every record [fetchEvents] returns has one of the four levels
    Information, Warning, Error, Unknown and a message with no white space
    at either end. *)
Theorem fetchEvents_records_well_formed (lib : golib) (be : backend)
    (script : list next_resp) (logName provider : string) (minutes maxEvents : Z)
    (w : world) :
  Forall well_formed
    (records_of (fst (fetchEvents lib be script logName provider minutes maxEvents w))).
Proof.
  rewrite fetchEvents_unfold. cbv zeta.
  destruct (UTF16PtrFromString (buildQuery _ _ provider)) as [queryPtr |]; [| by constructor].
  destruct (UTF16PtrFromString logName) as [pathPtr |]; [| by constructor].
  destruct (evtQuery be pathPtr queryPtr w) as [[hQuery | e | p] w1]; cbn [fst];
    try by constructor.
  destruct (_ <=? max_slice_cap lib); [| by constructor].
  pose proof (fetchLoop_well_formed lib be hQuery
                (if maxEvents <=? 0 then defaultMaxEvents else maxEvents) script []
                {| trace := trace w1; handles := ∅ |} (List.Forall_nil _)) as Hloop.
  by destruct (fetchLoop lib be hQuery _ script [] _) as [r w2].
Qed.

(** ** When a run cannot panic *)

Section No_panic.

Variable lib : golib.
Variable be : backend.

Hypothesis render_size : ∀ t h flags n, sz_used (be_EvtRender be t h flags n) ≠ 0%nat.
Hypothesis format_size : ∀ t meta h flags n,
  sz_used (be_EvtFormatMessage be t meta h flags n) ≠ 0%nat.

Lemma renderEventXML_no_panic (hEvt : Z) (w : world) :
  is_panic (fst (renderEventXML lib be hEvt w)) = false.
Proof.
  unfold renderEventXML, procEvtRender, bind, history, record; cbn.
  pose proof (render_size (trace w) hEvt evtRenderEventXML 0%nat) as Hsize.
  destruct (sz_r _ =? 0); [destruct (negb _) |]; cbn; try done;
    (destruct (sz_used _) as [| n]; cbn; [done |];
     match goal with |- context [if ?b then fail _ else _] => destruct b end; done).
Qed.

Lemma formatMessage_no_panic (meta hEvt : Z) (w : world) :
  is_panic (fst (formatMessage lib be meta hEvt w)) = false.
Proof.
  unfold formatMessage, procEvtFormatMessage, bind, history, record; cbn.
  pose proof (format_size (trace w) meta hEvt evtFormatMessageEvent 0%nat) as Hsize.
  destruct (sz_r _ =? 0); [destruct (negb _) |]; cbn; try done;
    (destruct (sz_used _) as [| n]; cbn; [done |];
     match goal with |- context [if ?b then fail _ else _] => destruct b end; done).
Qed.

Lemma get_no_panic (provider : string) (w : world) :
  is_panic (fst (get be provider w)) = false.
Proof.
  unfold get, bind, cache_lookup.
  destruct (handles w !! provider) as [h |]; cbn; [done |].
  unfold from_option, UTF16PtrFromString.
  destruct (has_nul provider); cbn; [done |].
  unfold procEvtOpenPublisherMetadata, bind, history, record; cbn.
  destruct (be_EvtOpenPublisherMetadata be (trace w) provider) as [r err]; cbn.
  by destruct (r =? 0).
Qed.

Lemma parseEvent_no_panic (hEvt : Z) (w : world) :
  is_panic (fst (parseEvent lib be hEvt w)) = false.
Proof.
  unfold parseEvent, bind.
  pose proof (renderEventXML_no_panic hEvt w) as H1.
  destruct (renderEventXML lib be hEvt w) as [[xmlText | e | p] w1]; cbn in *; try done.
  unfold from_option.
  destruct (xml_Unmarshal lib xmlText) as [parsed |]; cbn; [| done].
  destruct (time_Parse lib _) as [timestamp |]; cbn; [| done].
  pose proof (get_no_panic (System_Provider_Name parsed) w1) as H2.
  destruct (get be _ w1) as [[meta | e | p] w2]; cbn in *; try done.
  pose proof (formatMessage_no_panic meta hEvt w2) as H3.
  by destruct (formatMessage lib be meta hEvt w2) as [[msg | e | p] w3].
Qed.

Lemma renderBatch_no_panic (maxEvents : Z) (batch : list Z) :
  ∀ results w, is_panic (fst (renderBatch lib be maxEvents batch results w)) = false.
Proof.
  induction batch as [| hEvt rest IH]; intros results w; cbn; [done |].
  unfold bind, attempt.
  pose proof (parseEvent_no_panic hEvt w) as H1.
  destruct (parseEvent lib be hEvt w) as [[rec | e | p] w1]; cbn [fst snd] in *;
    [| by rewrite evtCloseHandle_after | done].
  rewrite evtCloseHandle_after; cbn [fst snd].
  destruct (_ >=? maxEvents); cbn [fst snd]; [done | apply IH].
Qed.

Lemma fetchStep_no_panic (hQuery maxEvents : Z) (resp : next_resp)
    (results : list eventRecord) (again : list eventRecord → M (list eventRecord))
    (w : world) :
  (nx_returned resp ≤ evtNextBatchSize)%nat →
  (∀ results' w', is_panic (fst (again results' w')) = false) →
  is_panic (fst (fetchStep lib be hQuery maxEvents resp results again w)) = false.
Proof.
  intros Hret Hagain. unfold fetchStep, bind, attempt.
  pose proof (evtNextBatch_cases resp hQuery evtNextBatchSize w) as Hb.
  destruct (evtNextBatch resp hQuery evtNextBatchSize w) as [[batch | e | p] w1];
    cbn [fst snd] in *.
  - pose proof (renderBatch_no_panic maxEvents batch results w1) as H1.
    destruct (renderBatch lib be maxEvents batch results w1) as [[recs | e | p] w2];
      cbn [fst snd] in *; (done || apply Hagain).
  - by destruct e.
  - destruct Hb as [Hz | [_ Hgt]]; [discriminate | lia].
Qed.

Lemma fetchLoop_no_panic (hQuery maxEvents : Z) (script : list next_resp) :
  Forall (fun resp => (nx_returned resp ≤ evtNextBatchSize)%nat) script →
  ∀ results w,
    is_panic (fst (fetchLoop lib be hQuery maxEvents script results w)) = false.
Proof.
  induction 1 as [| resp rest Hresp Hrest IH]; intros results w; rewrite fetchLoop_unfold;
    destruct (Z.of_nat (length results) <? maxEvents); try done;
    apply fetchStep_no_panic; (done || cbn; lia).
Qed.

(** A run cannot panic when the runtime can make the result slice, every
    sized call reports a size that is not zero and no batch fetch reports
    more handles than were asked for. *)
Lemma fetchEvents_no_panic_sized (script : list next_resp) (logName provider : string)
    (minutes maxEvents : Z) (w : world) :
  (if maxEvents <=? 0 then defaultMaxEvents else maxEvents) ≤ max_slice_cap lib →
  Forall (fun resp => (nx_returned resp ≤ evtNextBatchSize)%nat) script →
  is_panic (fst (fetchEvents lib be script logName provider minutes maxEvents w)) = false.
Proof.
  intros Hcap Hscript. rewrite fetchEvents_unfold. cbv zeta.
  destruct (UTF16PtrFromString (buildQuery _ _ provider)) as [queryPtr |]; [| done].
  destruct (UTF16PtrFromString logName) as [pathPtr |]; [| done].
  destruct (evtQuery_result be pathPtr queryPtr w) as [[e He] | (h & Hh & He)];
    rewrite He; [done |].
  destruct (Z.leb_spec (if maxEvents <=? 0 then defaultMaxEvents else maxEvents)
              (max_slice_cap lib)) as [_ | ?]; [| lia].
  pose proof (fetchLoop_no_panic h
                (if maxEvents <=? 0 then defaultMaxEvents else maxEvents) script Hscript []
                {| trace := trace (after w [EvtQuery pathPtr queryPtr 0x1001 h]);
                   handles := ∅ |}) as Hloop.
  by destruct (fetchLoop lib be h _ script [] _) as [r w2].
Qed.

End No_panic.

(** X15. [fetchEvents] does not panic when the cap in force (256 for a cap
    that is not positive) is a capacity the runtime can make the result
    slice with, the subsystem never reports a required size of zero for
    rendering or formatting, and never reports more than 16 handles for a
    batch. *)
Theorem fetchEvents_no_panic (lib : golib) (be : backend) (script : list next_resp)
    (logName provider : string) (minutes maxEvents : Z) (w : world) :
  (if maxEvents <=? 0 then defaultMaxEvents else maxEvents) ≤ max_slice_cap lib →
  (∀ t h flags n, sz_used (be_EvtRender be t h flags n) ≠ 0%nat) →
  (∀ t meta h flags n, sz_used (be_EvtFormatMessage be t meta h flags n) ≠ 0%nat) →
  Forall (fun resp => (nx_returned resp ≤ 16)%nat) script →
  is_panic (fst (fetchEvents lib be script logName provider minutes maxEvents w)) = false.
Proof. intros Hc Hr Hf Hs. by apply fetchEvents_no_panic_sized. Qed.

Lemma mock_sized_used (bufSize : nat) (text : list Z) :
  sz_used (mock_sized bufSize text) = length text.
Proof. unfold mock_sized. by destruct (_ <? _)%nat. Qed.

Lemma fetchEvents_no_panic_witness :
  ((if 4 <=? 0 then defaultMaxEvents else 4) ≤ max_slice_cap mock_lib
   ∧ (∀ t h flags n, sz_used (be_EvtRender mock_backend t h flags n) ≠ 0%nat)
   ∧ (∀ t meta h flags n, sz_used (be_EvtFormatMessage mock_backend t meta h flags n) ≠ 0%nat)
   ∧ Forall (fun resp => (nx_returned resp ≤ 16)%nat) mock_script)
  ∧ is_panic (fst (fetchEvents mock_lib mock_backend mock_script "Application" "" 10 4 start))
    = false
  ∧ fetchEvents mock_lib mock_backend mock_script "Application" "" 10 4611686018427387904
      start
    = (Panic MakesliceCapOutOfRange,
       after start
         [EvtQuery "Application" (buildQuery mock_lib 600000 "") 4097 100; EvtClose 100]).
Proof.
  assert (Hc : (if 4 <=? 0 then defaultMaxEvents else 4) ≤ max_slice_cap mock_lib)
    by (cbn; lia).
  assert (Hr : ∀ t h flags n, sz_used (be_EvtRender mock_backend t h flags n) ≠ 0%nat)
    by (intros; cbn [be_EvtRender mock_backend]; by rewrite mock_sized_used).
  assert (Hf : ∀ t meta h flags n,
             sz_used (be_EvtFormatMessage mock_backend t meta h flags n) ≠ 0%nat)
    by (intros; cbn [be_EvtFormatMessage mock_backend]; by rewrite mock_sized_used).
  assert (Hs : Forall (fun resp => (nx_returned resp ≤ 16)%nat) mock_script)
    by (repeat constructor; cbn; lia).
  split; [by repeat split |].
  split; [| vm_compute; reflexivity].
  exact (fetchEvents_no_panic mock_lib mock_backend mock_script "Application" "" 10 4 start
           Hc Hr Hf Hs).
Defined.
